(** * SSD1306 display driver (src/lcd/ssd1306.cpp): a shallow embedding

    The driver renders text and part-level meters into a page-addressed
    framebuffer and sends it over I2C.  Unsigned C++ integers are modelled
    as [Z] with the wrap-around of every narrowing store written out;
    arrays are lists indexed with stdpp's lookup and insert; an access
    outside an array (undefined behaviour in C++) makes the embedded
    function return [None]. *)

From Stdlib Require Import ZArith QArith Lia Bool.
From stdpp Require Import base option list.

Local Open Scope Z_scope.

(** ** Machine integers *)

(** Stores to [u8] and [u16] variables keep the low 8 / 16 bits. *)
Definition to_u8 (z : Z) : Z := Z.land z 0xFF.
Definition to_u16 (z : Z) : Z := Z.land z 0xFFFF.

Definition is_u8 (z : Z) : Prop := 0 <= z < 256.

(** ** Loops

    [for (u8 i = lo; i < hi; ++i) body] over a loop-carried state. *)
Fixpoint for_steps {S : Type} (n : nat) (i : Z) (body : Z → S → S) (s : S) : S :=
  match n with
  | O => s
  | Datatypes.S n' => for_steps n' (i + 1) body (body i s)
  end.

Definition for_loop {S : Type} (lo hi : Z) (body : Z → S → S) (s : S) : S :=
  for_steps (Z.to_nat (hi - lo)) lo body s.

(** The same loop with a body that may fault. *)
Fixpoint for_stepsM {S : Type} (n : nat) (i : Z) (body : Z → S → option S) (s : S)
  : option S :=
  match n with
  | O => Some s
  | Datatypes.S n' => s' ← body i s; for_stepsM n' (i + 1) body s'
  end.

Definition for_loopM {S : Type} (lo hi : Z) (body : Z → S → option S) (s : S)
  : option S :=
  for_stepsM (Z.to_nat (hi - lo)) lo body s.

(** ** Compile-time font conversion *)

(** [using CharData = u8[8]]: the eight rows of one glyph. *)
Definition CharData := list Z.

(** Collect the bits of column [nColumn] over the eight rows. *)
Definition SingleColumn (charData : CharData) (nColumn : Z) : Z :=
  let bit := to_u8 (5 - nColumn) in
  for_loop 0 8
    (fun i column =>
       to_u8 (Z.lor column
                (Z.shiftl (Z.land (Z.shiftr (charData !!! Z.to_nat i) bit) 1) i)))
    0.

(** Duplicate every bit of the single-height column into a 16-bit value. *)
Definition DoubleColumn (charData : CharData) (nColumn : Z) : Z :=
  let singleColumn := SingleColumn charData nColumn in
  for_loop 0 8
    (fun i column =>
       let bit := negb (Z.land (Z.shiftr singleColumn i) 1 =? 0) in
       to_u16 (Z.lor column
                 (Z.lor (Z.shiftl (Z.b2z bit) (i * 2))
                        (Z.shiftl (Z.b2z bit) (i * 2 + 1)))))
    0.

(** [Font<N, F>]: the table [mCharData[i][j] = Function(CharData[i], j)]
    for the six columns of every glyph. *)
Definition Font (F : CharData → Z → Z) (table : list CharData) : list (list Z) :=
  map (fun charData => map (F charData) [0; 1; 2; 3; 4; 5]) table.

(** [font[nIndex][j]]; [None] outside the table. *)
Definition Font_at (font : list (list Z)) (nIndex j : Z) : option Z :=
  if (0 <=? nIndex) && (0 <=? j) then
    columns ← font !! Z.to_nat nIndex; columns !! Z.to_nat j
  else None.

(** ** Arrays

    A C array is a list; reading or writing outside it is undefined
    behaviour and yields [None]. *)
Definition array_read (a : list Z) (i : Z) : option Z :=
  if 0 <=? i then a !! Z.to_nat i else None.

Definition array_write (a : list Z) (i v : Z) : option (list Z) :=
  if (0 <=? i) && (i <? Z.of_nat (length a))
  then Some (<[Z.to_nat i := v]> a)
  else None.

(** [memset(a + start, v, n)]. *)
Definition memset (a : list Z) (start v n : Z) : option (list Z) :=
  for_loopM start (start + n) (fun k a => array_write a k v) a.

(** ** Drawing constants *)
Definition Width : Z := 128.
Definition BarWidth : Z := 12.
Definition BarSpacing : Z := 2.
Definition BarOffset : Z := 2.

(** ** Driver state *)

(** Modelled from the spec: the enumeration [TLCDRotation] is declared in a
    header that is not part of the sources; the spec describes it as a
    rotation flag that is either normal or inverted. *)
Inductive TLCDRotation : Set := Normal | Inverted.

(** Modelled from the spec: the members of the base class [CMT32LCD] that
    the driver reads (declared in an absent header).  A level is a
    fractional value, nominally in [0, 1], taken here as a rational; there
    are nine parts. *)
Record CMT32LCD : Type := mkCMT32LCD {
  m_PartLevels : list Q;
  m_PeakLevels : list Q;
  m_TextBuffer : list Z
}.

(** The object.  [i2c_writes] stands for the I2C master behind
    [m_pI2CMaster]: the [Write(address, buffer, count)] calls it has
    received, oldest first, each with the bytes passed. *)
Record CSSD1306 : Type := mkCSSD1306 {
  base : CMT32LCD;
  m_nAddress : Z;
  m_nHeight : Z;
  m_Rotation : TLCDRotation;
  m_Framebuffer : list Z;
  i2c_writes : list (Z * list Z)
}.

Definition set_Framebuffer (lcd : CSSD1306) (fb : list Z) : CSSD1306 :=
  {| base := base lcd; m_nAddress := m_nAddress lcd; m_nHeight := m_nHeight lcd;
     m_Rotation := m_Rotation lcd; m_Framebuffer := fb;
     i2c_writes := i2c_writes lcd |}.

Definition set_base (lcd : CSSD1306) (b : CMT32LCD) : CSSD1306 :=
  {| base := b; m_nAddress := m_nAddress lcd; m_nHeight := m_nHeight lcd;
     m_Rotation := m_Rotation lcd; m_Framebuffer := m_Framebuffer lcd;
     i2c_writes := i2c_writes lcd |}.

(** [m_pI2CMaster->Write(nAddress, buffer, count)]; the status it returns is
    ignored by every caller. *)
Definition I2C_Write (lcd : CSSD1306) (nAddress : Z) (bytes : list Z) : CSSD1306 :=
  {| base := base lcd; m_nAddress := m_nAddress lcd; m_nHeight := m_nHeight lcd;
     m_Rotation := m_Rotation lcd; m_Framebuffer := m_Framebuffer lcd;
     i2c_writes := i2c_writes lcd ++ [(nAddress, bytes)] |}.

(** Modelled from the spec: the size of [m_Framebuffer], declared in the
    absent class header: one control byte followed by the packed pages.
    A member array has one size for every object, so it is that of the
    largest supported geometry, 128 x 64, to which [SetPixel] masks its
    coordinates. *)
Definition FramebufferSize : Z := 128 * 64 / 8 + 1.

(** The constructor: [m_Framebuffer{0x40}] sets byte 0 and zeroes the rest.
    [b] is the state left by the base-class constructor.  The assertion on
    [nHeight] is compiled out of release builds and is not modelled. *)
Definition CSSD1306_new (b : CMT32LCD) (nAddress nHeight : Z)
    (Rotation : TLCDRotation) : CSSD1306 :=
  {| base := b; m_nAddress := to_u8 nAddress; m_nHeight := to_u8 nHeight;
     m_Rotation := Rotation;
     m_Framebuffer := 0x40 :: replicate (Z.to_nat (FramebufferSize - 1)) 0;
     i2c_writes := [] |}.

(** ** Initialize *)

Definition initSequence (nHeight : Z) (Rotation : TLCDRotation) : list Z :=
  let pageAddrRange := if nHeight =? 32 then 0x03 else 0x07 in
  let segRemap := match Rotation with Inverted => 0xA0 | _ => 0xA1 end in
  let comScanDir := match Rotation with Inverted => 0xC0 | _ => 0xC8 end in
  let multiplexRatio := to_u8 (nHeight - 1) in
  let comPins := if nHeight =? 32 then 0x02 else 0x12 in
  [ 0xAE; 0x81; 0x7F;
    0xA6;
    0x20; 0x0; 0x21; 0x00; 0x7F; 0x22; 0x00; pageAddrRange;
    segRemap; 0xA8; multiplexRatio;
    comScanDir; 0xD3; 0x00; 0xDA; comPins;
    0xD5; 0x80; 0xD9; 0x22; 0xDB; 0x20;
    0x8D; 0x14;
    0xA4; 0xAF ].

(** The result and the object afterwards.  The assertion on
    [m_pI2CMaster] concerns the pointer itself, which is not modelled. *)
Definition Initialize (lcd : CSSD1306) : bool * CSSD1306 :=
  if negb ((m_nHeight lcd =? 32) || (m_nHeight lcd =? 64)) then (false, lcd)
  else
    (true,
     foldl (fun lcd byte => I2C_Write lcd (m_nAddress lcd) [0x80; byte])
           lcd (initSequence (m_nHeight lcd) (m_Rotation lcd))).

(** ** Framebuffer primitives *)

(** Copies [m_nHeight * 16 + 1] bytes of the framebuffer to the bus. *)
Definition WriteFramebuffer (lcd : CSSD1306) : option CSSD1306 :=
  let count := m_nHeight lcd * 16 + 1 in
  if count <=? Z.of_nat (length (m_Framebuffer lcd))
  then Some (I2C_Write lcd (m_nAddress lcd)
                       (take (Z.to_nat count) (m_Framebuffer lcd)))
  else None.

(** The index [((nY & 0xF8) << 4) + nX + 1] of [SetPixel] and
    [ClearPixel]. *)
Definition PixelOffset (nX nY : Z) : Z :=
  Z.shiftl (Z.land nY 0xF8) 4 + nX + 1.

Definition SetPixel (nX nY : Z) (lcd : CSSD1306) : option CSSD1306 :=
  let nX := to_u8 (Z.land nX 0x7F) in
  let nY := to_u8 (Z.land nY 0x3F) in
  v ← array_read (m_Framebuffer lcd) (PixelOffset nX nY);
  fb ← array_write (m_Framebuffer lcd) (PixelOffset nX nY)
         (to_u8 (Z.lor v (Z.shiftl 1 (Z.land nY 7))));
  Some (set_Framebuffer lcd fb).

Definition ClearPixel (nX nY : Z) (lcd : CSSD1306) : option CSSD1306 :=
  let nX := to_u8 (Z.land nX 0x7F) in
  let nY := to_u8 (Z.land nY 0x3F) in
  v ← array_read (m_Framebuffer lcd) (PixelOffset nX nY);
  fb ← array_write (m_Framebuffer lcd) (PixelOffset nX nY)
         (to_u8 (Z.land v (Z.lnot (Z.shiftl 1 (Z.land nY 7)))));
  Some (set_Framebuffer lcd fb).

(** [memset(m_Framebuffer + 1, 0, Width * m_nHeight / 8)], then the
    optional flush. *)
Definition Clear (bImmediate : bool) (lcd : CSSD1306) : option CSSD1306 :=
  fb ← memset (m_Framebuffer lcd) 1 0 (Width * m_nHeight lcd / 8);
  let lcd := set_Framebuffer lcd fb in
  if bImmediate then WriteFramebuffer lcd else Some lcd.

(** ** Part-level meters *)

(** [const u8 pixels = level * barHeight]: the product is truncated toward
    zero; the conversion is undefined when the result does not fit [u8]. *)
Definition LevelPixels (level : Q) (barHeight : Z) : option Z :=
  let product := (level * inject_Z barHeight)%Q in
  let truncated := Z.quot (Qnum product) (Z.pos (Qden product)) in
  if (0 <=? truncated) && (truncated <=? 255) then Some truncated else None.

(** Lines 241-251: the page values of one bar.  [pageValues] is the
    uninitialised array of [totalPages] bytes. *)
Definition BarPages (totalPages partLevelPixels : Z) (pageValues : list Z)
  : option (list Z) :=
  let fullPages := to_u8 (partLevelPixels / 8) in
  let remainder := to_u8 (partLevelPixels mod 8) in
  pageValues ← for_loopM 0 fullPages
                 (fun j pageValues => array_write pageValues j 0xFF) pageValues;
  pageValues ← for_loopM fullPages totalPages
                 (fun j pageValues => array_write pageValues j 0) pageValues;
  if negb (remainder =? 0)
  then array_write pageValues fullPages (to_u8 (Z.shiftl 0xFF (8 - remainder)))
  else Some pageValues.

(** Lines 253-263: the peak meter of one bar. *)
Definition PeakMeter (bDrawPeaks : bool) (peakLevelPixels : Z)
    (pageValues : list Z) : option (list Z) :=
  if bDrawPeaks && negb (peakLevelPixels =? 0) then
    let peakPage := to_u8 (peakLevelPixels / 8) in
    let remainder := to_u8 (peakLevelPixels mod 8) in
    if negb (remainder =? 0) then
      v ← array_read pageValues peakPage;
      array_write pageValues peakPage
        (to_u8 (Z.lor v (Z.shiftl 1 (8 - remainder))))
    else
      v ← array_read pageValues (peakPage - 1);
      array_write pageValues (peakPage - 1) (to_u8 (Z.lor v 1))
  else Some pageValues.

(** The index of [pageValues] that the peak meter updates. *)
Definition PeakIndex (peakLevelPixels : Z) : Z :=
  let peakPage := to_u8 (peakLevelPixels / 8) in
  let remainder := to_u8 (peakLevelPixels mod 8) in
  if negb (remainder =? 0) then peakPage else peakPage - 1.

(** Lines 271-280: [offset] for bar [i], bar column [j] and bar row [k].
    The term in the middle is computed in [int]; it is not negative, since
    [k < totalPages]. *)
Definition BarByteOffset (firstPageOffset totalPages i j k : Z) : Z :=
  firstPageOffset + BarOffset
  + ((totalPages - 1) * Width - k * Width)
  + (i * (BarWidth + BarSpacing) + j).

(** Lines 265-285: copy the page values of bar [i] into the framebuffer. *)
Definition DrawBar (firstPageOffset totalPages i : Z) (pageValues : list Z)
    (fb : list Z) : option (list Z) :=
  for_loopM 0 BarWidth
    (fun j fb =>
       for_loopM 0 totalPages
         (fun k fb =>
            v ← array_read pageValues k;
            array_write fb (BarByteOffset firstPageOffset totalPages i j k + 1) v)
         fb)
    fb.

(** [const u8 totalPages = m_nHeight / 8 - 2] and
    [const u8 barHeight = m_nHeight - 8 * 2]. *)
Definition TotalPages (nHeight : Z) : Z := to_u8 (nHeight / 8 - 2).
Definition BarHeight (nHeight : Z) : Z := to_u8 (nHeight - 8 * 2).

(** Lines 238-263: the page values of one part.  [pageValues] is declared
    without an initialiser; the model starts it at zero, and [BarPages]
    overwrites every element before any is read. *)
Definition PageValues (totalPages barHeight : Z) (bDrawPeaks : bool)
    (partLevel peakLevel : Q) : option (list Z) :=
  partLevelPixels ← LevelPixels partLevel barHeight;
  peakLevelPixels ← LevelPixels peakLevel barHeight;
  pageValues ← BarPages totalPages partLevelPixels
                  (replicate (Z.to_nat totalPages) 0);
  PeakMeter bDrawPeaks peakLevelPixels pageValues.

(** The page values of part [i] of the object. *)
Definition PartPageValues (lcd : CSSD1306) (bDrawPeaks : bool) (i : Z)
  : option (list Z) :=
  partLevel ← m_PartLevels (base lcd) !! Z.to_nat i;
  peakLevel ← m_PeakLevels (base lcd) !! Z.to_nat i;
  PageValues (TotalPages (m_nHeight lcd)) (BarHeight (m_nHeight lcd))
             bDrawPeaks partLevel peakLevel.

Definition DrawPartLevels (nFirstRow : Z) (bDrawPeaks : bool) (lcd : CSSD1306)
  : option CSSD1306 :=
  let firstPageOffset := nFirstRow * Width in
  let totalPages := TotalPages (m_nHeight lcd) in
  fb ← for_loopM 0 9
         (fun i fb =>
            pageValues ← PartPageValues lcd bDrawPeaks i;
            DrawBar firstPageOffset totalPages i pageValues fb)
         (m_Framebuffer lcd);
  Some (set_Framebuffer lcd fb).

(** ** Predicates used in the statements *)

(** Nine part levels and nine peak levels, all in [0, 1]. *)
Definition unit_level (l : Q) : Prop := (0 <= l)%Q ∧ (l <= 1)%Q.

Definition levels_ok (b : CMT32LCD) : Prop :=
  length (m_PartLevels b) = 9%nat ∧ length (m_PeakLevels b) = 9%nat ∧
  Forall unit_level (m_PartLevels b) ∧ Forall unit_level (m_PeakLevels b).

(** [f] writes the array on [dom]: whenever [dom] lies inside the array,
    [f] succeeds, keeps the length, leaves in every cell of [dom] a value
    that [content] allows, and leaves every other cell as it was. *)
Definition writes (f : list Z → option (list Z)) (dom : Z → Prop)
    (content : Z → Z → Prop) : Prop :=
  ∀ fb : list Z,
    (∀ n, dom n → 0 <= n < Z.of_nat (length fb)) →
    ∃ fb', f fb = Some fb' ∧ length fb' = length fb ∧
           (∀ n, dom n → ∃ v, fb' !! Z.to_nat n = Some v ∧ content n v) ∧
           (∀ n : nat, ¬ dom (Z.of_nat n) → fb' !! n = fb !! n).

(** [fb'] is [fb] drawn over: the length and the control byte are kept,
    and so is the property of holding bytes. *)
Definition redrawn (fb fb' : list Z) : Prop :=
  length fb' = length fb ∧
  fb' !! 0%nat = fb !! 0%nat ∧
  (Forall is_u8 fb → Forall is_u8 fb').

(** The framebuffer offset of display page [page], column [column]. *)
Definition PageByte (page column : Z) : Z := 1 + page * Width + column.

(** ** Pixels of the display and of a bar *)

(** The pixel (x, y) of a framebuffer: bit [y mod 8] of the byte of page
    [y / 8], column [x], which is the bit that [SetPixel] addresses. *)
Definition Pixel (fb : list Z) (x y : Z) : bool :=
  match fb !! Z.to_nat (PageByte (y / 8) x) with
  | Some v => Z.testbit v (y mod 8)
  | None => false
  end.

(** The pixel of a bar at height [h] above its bottom row: bar row
    [h / 8] (element [h / 8] of the page values), whose bit 7 is its
    lowest pixel row. *)
Definition BarPixel (pageValues : list Z) (h : Z) : bool :=
  match pageValues !! Z.to_nat (h / 8) with
  | Some v => Z.testbit v (7 - h mod 8)
  | None => false
  end.

(** The 16-bit column that [DrawChar] splits into two bytes: the font
    column, inverted if asked (not in glyph column 0), shifted by 2. *)
Definition GlyphColumn (fontColumn : Z) (bInverted : bool) (i : Z) : Z :=
  to_u16 (Z.shiftl (if (0 <? i) && bInverted
                    then to_u16 (Z.lxor fontColumn 0x3FFF)
                    else fontColumn) 2).

(** A glyph of sample data, and a font of 97 such glyphs, on which the
    theorems below are exercised. *)
Definition SampleGlyph : CharData :=
  [0x0E; 0x11; 0x11; 0x1F; 0x11; 0x11; 0x11; 0x00].
Definition SampleFont : list CharData := replicate 97 SampleGlyph.

Definition SampleLevels : list Q :=
  [(1 # 2); 0; 1; (1 # 3); (1 # 48); (47 # 48); (1 # 6); (1 # 4); (3 # 4)]%Q.
Definition SampleBase : CMT32LCD :=
  {| m_PartLevels := SampleLevels; m_PeakLevels := SampleLevels;
     m_TextBuffer := [72; 69; 76; 76; 79] |}.
Definition SampleLCD : CSSD1306 := CSSD1306_new SampleBase 0x3C 64 Normal.

(** A display configured with an unsupported height. *)
Definition Sample48LCD : CSSD1306 := CSSD1306_new SampleBase 0x3C 48 Normal.

(** The sample display with the pixel (0, 0) lit. *)
Definition LitLCD : CSSD1306 :=
  set_Framebuffer SampleLCD (<[1%nat := 1]> (m_Framebuffer SampleLCD)).

Section Driver.

(** The font table [Font6x8] of the absent header [lcd/font6x8.h]. *)
Variable Font6x8 : list CharData.

(** Default arguments declared in the absent class header: the flags that
    [Print] leaves to [DrawChar], and those that [Update] leaves to
    [DrawPartLevels] and [Print]. *)
Variable DrawChar_bInverted_default : bool.
Variable DrawChar_bDoubleWidth_default : bool.
Variable DrawPartLevels_bDrawPeaks_default : bool.
Variable Print_bImmediate_default : bool.

(** The base-class steps of [Update], defined outside the sources: they
    refresh the levels and the text buffer from the synthesizer. *)
Variable CMT32Synth : Type.
Variable CMT32LCD_Update : CMT32Synth → CMT32LCD → CMT32LCD.
Variable UpdatePartLevels : CMT32Synth → CMT32LCD → CMT32LCD.
Variable UpdatePeakLevels : CMT32LCD → CMT32LCD.

(** Single and double-height versions of the font. *)
Definition FontSingle : list (list Z) := Font SingleColumn Font6x8.
Definition FontDouble : list (list Z) := Font DoubleColumn Font6x8.

(** ** Glyph blitter *)

(** The index in the font table at which [DrawChar] looks a character up. *)
Definition GlyphIndex (chChar : Z) : Z :=
  to_u8 ((if chChar =? 0xFF then 0x80 else chChar) - 32).

(** [offset] for glyph column [i]; the sums stay far below the range of
    [size_t]. *)
Definition DrawCharOffset (nCursorX nCursorY : Z) (bDoubleWidth : bool) (i : Z) : Z :=
  let rowOffset := nCursorY * Width * 2 in
  let columnOffset := nCursorX * (if bDoubleWidth then 12 else 6) + 5 in
  rowOffset + columnOffset + (if bDoubleWidth then i * 2 else i).

Definition DrawChar (chChar nCursorX nCursorY : Z) (bInverted bDoubleWidth : bool)
    (lcd : CSSD1306) : option CSSD1306 :=
  let chChar := if chChar =? 0xFF then 0x80 else chChar in
  fb ← for_loopM 0 6
         (fun i fb =>
            fontColumn ← Font_at FontDouble (to_u8 (chChar - 32)) i;
            let fontColumn :=
              if (0 <? i) && bInverted then to_u16 (Z.lxor fontColumn 0x3FFF)
              else fontColumn in
            let fontColumn := to_u16 (Z.shiftl fontColumn 2) in
            let offset := DrawCharOffset nCursorX nCursorY bDoubleWidth i in
            fb ← array_write fb offset (Z.land fontColumn 0xFF);
            fb ← array_write fb (offset + Width)
                   (Z.land (Z.shiftr fontColumn 8) 0xFF);
            if bDoubleWidth then
              v ← array_read fb offset;
              fb ← array_write fb (offset + 1) v;
              v ← array_read fb (offset + Width);
              array_write fb (offset + Width + 1) v
            else Some fb)
         (m_Framebuffer lcd);
  Some (set_Framebuffer lcd fb).

(** ** Print

    [pText] is the sequence of characters at the pointer; the string ends
    at the first NUL, or at the end of the list. *)
Fixpoint Print_chars (pText : list Z) (nCursorX nCursorY : Z) (lcd : CSSD1306)
  : option (Z * CSSD1306) :=
  match pText with
  | c :: pText' =>
      if negb (c =? 0) && (nCursorX <? 20) then
        lcd ← DrawChar c nCursorX nCursorY
                DrawChar_bInverted_default DrawChar_bDoubleWidth_default lcd;
        Print_chars pText' (to_u8 (nCursorX + 1)) nCursorY lcd
      else Some (nCursorX, lcd)
  | [] => Some (nCursorX, lcd)
  end.

Definition Print (pText : list Z) (nCursorX nCursorY : Z)
    (bClearLine bImmediate : bool) (lcd : CSSD1306) : option CSSD1306 :=
  '(nCursorX, lcd) ← Print_chars pText nCursorX nCursorY lcd;
  lcd ← (if bClearLine then
           for_loopM nCursorX 20
             (fun x lcd =>
                DrawChar 32 x nCursorY
                  DrawChar_bInverted_default DrawChar_bDoubleWidth_default lcd)
             lcd
         else Some lcd);
  if bImmediate then WriteFramebuffer lcd else Some lcd.

(** ** Update *)
Definition Update (Synth : CMT32Synth) (lcd : CSSD1306) : option CSSD1306 :=
  let lcd := set_base lcd (CMT32LCD_Update Synth (base lcd)) in
  let lcd := set_base lcd (UpdatePartLevels Synth (base lcd)) in
  let lcd := set_base lcd (UpdatePeakLevels (base lcd)) in
  lcd ← DrawPartLevels 0 DrawPartLevels_bDrawPeaks_default lcd;
  let statusRow := if m_nHeight lcd =? 32 then 1 else 3 in
  lcd ← Print (m_TextBuffer (base lcd)) 0 statusRow true
          Print_bImmediate_default lcd;
  WriteFramebuffer lcd.

(** ** The words of the specification, for comparison with [Print] *)

(** The characters of a C string: those before the first NUL. *)
Fixpoint c_str (pText : list Z) : list Z :=
  match pText with
  | c :: pText' => if c =? 0 then [] else c :: c_str pText'
  | [] => []
  end.

(** Blit [chars] left to right, one cell each, starting at cell [x]. *)
Fixpoint BlitCells (chars : list Z) (x y : Z) (lcd : CSSD1306) : option CSSD1306 :=
  match chars with
  | [] => Some lcd
  | c :: chars' =>
      lcd ← DrawChar c x y
              DrawChar_bInverted_default DrawChar_bDoubleWidth_default lcd;
      BlitCells chars' (x + 1) y lcd
  end.

(** Blit the string until it ends or column 20 is reached; pad the cells
    that remain up to column 20 with spaces if asked; flush if asked. *)
Definition Print_spec (text : list Z) (x y : Z) (clearLine immediate : bool)
    (lcd : CSSD1306) : option CSSD1306 :=
  let blitted := take (Z.to_nat (20 - x)) (c_str text) in
  let next := x + Z.of_nat (length blitted) in
  lcd ← BlitCells blitted x y lcd;
  lcd ← (if clearLine
         then BlitCells (replicate (Z.to_nat (20 - next)) 32) next y lcd
         else Some lcd);
  if immediate then WriteFramebuffer lcd else Some lcd.

(** ** Reachable states *)

(** The public operations of the driver; every [Z] argument is a [u8]
    (or a [char]). *)
Inductive Operation : Type :=
| OpInitialize
| OpWriteFramebuffer
| OpSetPixel (nX nY : Z)
| OpClearPixel (nX nY : Z)
| OpDrawChar (chChar nCursorX nCursorY : Z) (bInverted bDoubleWidth : bool)
| OpDrawPartLevels (nFirstRow : Z) (bDrawPeaks : bool)
| OpPrint (pText : list Z) (nCursorX nCursorY : Z) (bClearLine bImmediate : bool)
| OpClear (bImmediate : bool)
| OpUpdate (Synth : CMT32Synth).

Definition well_typed (o : Operation) : Prop :=
  match o with
  | OpSetPixel nX nY | OpClearPixel nX nY => is_u8 nX ∧ is_u8 nY
  | OpDrawChar _ nCursorX nCursorY _ _ => is_u8 nCursorX ∧ is_u8 nCursorY
  | OpDrawPartLevels nFirstRow _ => is_u8 nFirstRow
  | OpPrint _ nCursorX nCursorY _ _ => is_u8 nCursorX ∧ is_u8 nCursorY
  | _ => True
  end.

Definition run (o : Operation) (lcd : CSSD1306) : option CSSD1306 :=
  match o with
  | OpInitialize => Some (snd (Initialize lcd))
  | OpWriteFramebuffer => WriteFramebuffer lcd
  | OpSetPixel nX nY => SetPixel nX nY lcd
  | OpClearPixel nX nY => ClearPixel nX nY lcd
  | OpDrawChar c x y inv dw => DrawChar c x y inv dw lcd
  | OpDrawPartLevels r p => DrawPartLevels r p lcd
  | OpPrint t x y cl imm => Print t x y cl imm lcd
  | OpClear imm => Clear imm lcd
  | OpUpdate Synth => Update Synth lcd
  end.

Inductive reachable : CSSD1306 → Prop :=
| reachable_new b nAddress nHeight Rotation :
    reachable (CSSD1306_new b nAddress nHeight Rotation)
| reachable_run o lcd lcd' :
    reachable lcd → well_typed o → run o lcd = Some lcd' → reachable lcd'.

(** ** The bytes of a character cell *)

(** The framebuffer offsets that [DrawChar] writes for glyph column [i]:
    [offset] and [offset + Width], and their right neighbours when the
    glyph is drawn in double width. *)
Definition GlyphCell (nCursorX nCursorY : Z) (bDoubleWidth : bool) (i n : Z) : Prop :=
  let offset := DrawCharOffset nCursorX nCursorY bDoubleWidth i in
  n = offset ∨ n = offset + Width ∨
  bDoubleWidth = true ∧ (n = offset + 1 ∨ n = offset + Width + 1).

(** The byte that it leaves there: the low byte of the column in the
    upper page, the high byte in the lower one. *)
Definition GlyphByte (glyph : CharData) (bInverted : bool)
    (nCursorX nCursorY : Z) (bDoubleWidth : bool) (i n : Z) : Z :=
  let fontColumn := GlyphColumn (DoubleColumn glyph i) bInverted i in
  if n <? DrawCharOffset nCursorX nCursorY bDoubleWidth i + Width
  then Z.land fontColumn 0xFF
  else Z.land (Z.shiftr fontColumn 8) 0xFF.

(** ** Loop lemmas *)

(** Invariant rule: [P i] holds of the state before iteration [i]. *)
Lemma for_loop_inv {S : Type} (P : Z → S → Prop) lo hi (body : Z → S → S) s :
  lo <= hi →
  P lo s →
  (∀ i s, lo <= i < hi → P i s → P (i + 1) (body i s)) →
  P hi (for_loop lo hi body s).
Proof.
  intros Hle H0 Hstep. unfold for_loop.
  remember (Z.to_nat (hi - lo)) as n eqn:Hn.
  assert (Hhi : hi = lo + Z.of_nat n) by lia.
  clear Hn. revert lo s Hle H0 Hstep Hhi.
  induction n as [|n IH]; intros lo s Hle H0 Hstep Hhi; simpl.
  - replace hi with lo by lia. exact H0.
  - apply IH; try lia.
    + apply Hstep; [lia | exact H0].
    + intros i s' Hi. apply Hstep. lia.
Qed.

(** Invariant rule for a loop whose body may fault: if every iteration
    succeeds from a state satisfying the invariant, so does the loop. *)
Lemma for_loopM_inv {S : Type} (P : Z → S → Prop) lo hi (body : Z → S → option S) s :
  lo <= hi →
  P lo s →
  (∀ i s, lo <= i < hi → P i s → ∃ s', body i s = Some s' ∧ P (i + 1) s') →
  ∃ s', for_loopM lo hi body s = Some s' ∧ P hi s'.
Proof.
  intros Hle H0 Hstep. unfold for_loopM.
  remember (Z.to_nat (hi - lo)) as n eqn:Hn.
  assert (Hhi : hi = lo + Z.of_nat n) by lia.
  clear Hn. revert lo s Hle H0 Hstep Hhi.
  induction n as [|n IH]; intros lo s Hle H0 Hstep Hhi; simpl.
  - replace hi with lo by lia. eauto.
  - destruct (Hstep lo s) as (s1 & Hb & HP); [lia | exact H0 |].
    rewrite Hb. simpl. apply IH; try lia; [exact HP |].
    intros i s' Hi. apply Hstep. lia.
Qed.

(** The partial form: whatever the loop returns satisfies the invariant. *)
Lemma for_loopM_post {S : Type} (P : Z → S → Prop) lo hi (body : Z → S → option S) s s' :
  lo <= hi →
  P lo s →
  (∀ i s s1, lo <= i < hi → P i s → body i s = Some s1 → P (i + 1) s1) →
  for_loopM lo hi body s = Some s' →
  P hi s'.
Proof.
  intros Hle H0 Hstep. unfold for_loopM.
  remember (Z.to_nat (hi - lo)) as n eqn:Hn.
  assert (Hhi : hi = lo + Z.of_nat n) by lia.
  clear Hn. revert lo s Hle H0 Hstep Hhi.
  induction n as [|n IH]; intros lo s Hle H0 Hstep Hhi; simpl.
  - intros [= <-]. replace hi with lo by lia. exact H0.
  - destruct (body lo s) as [s1|] eqn:Hb; simpl; [|discriminate].
    apply IH; try lia.
    + eapply Hstep; [| exact H0 | exact Hb]. lia.
    + intros i s2 s3 Hi. apply Hstep. lia.
Qed.

Lemma for_loopM_empty {S : Type} lo hi (body : Z → S → option S) s :
  hi <= lo → for_loopM lo hi body s = Some s.
Proof.
  intros H. unfold for_loopM. replace (Z.to_nat (hi - lo)) with O by lia.
  reflexivity.
Qed.

(** An invariant that does not depend on the loop counter. *)
Lemma for_loopM_preserves {S : Type} (P : S → Prop) lo hi (body : Z → S → option S) s s' :
  P s →
  (∀ i s s1, lo <= i < hi → P s → body i s = Some s1 → P s1) →
  for_loopM lo hi body s = Some s' →
  P s'.
Proof.
  intros H0 Hstep Hrun.
  destruct (Z_le_gt_dec lo hi) as [Hle|Hgt].
  - apply (for_loopM_post (fun _ => P) lo hi body s s'); auto.
  - rewrite for_loopM_empty in Hrun by lia. congruence.
Qed.

(** ** Bit-level facts *)

Lemma to_u8_range z : 0 <= to_u8 z < 256.
Proof.
  unfold to_u8. change 0xFF with (Z.ones 8).
  rewrite Z.land_ones by lia. apply Z.mod_pos_bound. reflexivity.
Qed.

Lemma to_u16_range z : 0 <= to_u16 z < 65536.
Proof.
  unfold to_u16. change 0xFFFF with (Z.ones 16).
  rewrite Z.land_ones by lia. apply Z.mod_pos_bound. reflexivity.
Qed.

Lemma to_u8_small z : 0 <= z < 256 → to_u8 z = z.
Proof.
  intros H. unfold to_u8. change 0xFF with (Z.ones 8).
  rewrite Z.land_ones by lia. apply Z.mod_small. exact H.
Qed.

Lemma to_u16_testbit z n :
  0 <= n → Z.testbit (to_u16 z) n = Z.testbit z n && (n <? 16).
Proof.
  intros Hn. unfold to_u16. change 0xFFFF with (Z.ones 16).
  rewrite Z.land_spec, Z.testbit_ones by lia.
  replace (0 <=? n) with true by (symmetry; apply Z.leb_le; lia).
  reflexivity.
Qed.

Lemma b2z_shiftl_testbit (b : bool) m n :
  0 <= m → 0 <= n →
  Z.testbit (Z.shiftl (Z.b2z b) m) n = b && (n =? m).
Proof.
  intros Hm Hn. rewrite Z.shiftl_spec by lia.
  destruct (Z.eqb_spec n m) as [->|Hne].
  - rewrite Z.sub_diag. destruct b; reflexivity.
  - rewrite andb_false_r.
    destruct (Z_lt_le_dec n m).
    + apply Z.testbit_neg_r. lia.
    + destruct b; simpl.
      * change 1 with (Z.ones 1). rewrite Z.testbit_ones by lia.
        apply andb_false_iff. right. apply Z.ltb_ge. lia.
      * apply Z.testbit_0_l.
Qed.

Lemma land1_testbit s i :
  negb (Z.land (Z.shiftr s i) 1 =? 0) = Z.testbit s i.
Proof.
  rewrite Z.testbit_odd. generalize (Z.shiftr s i) as x. intros x.
  change 1 with (Z.ones 1). rewrite Z.land_ones by lia.
  change (2 ^ 1) with 2. rewrite Zmod_odd.
  destruct (Z.odd x); reflexivity.
Qed.

(** ** Arrays *)

Lemma array_write_Some (a : list Z) i v :
  0 <= i < Z.of_nat (length a) →
  array_write a i v = Some (<[Z.to_nat i := v]> a).
Proof.
  intros H. unfold array_write.
  replace (0 <=? i) with true by (symmetry; apply Z.leb_le; lia).
  replace (i <? Z.of_nat (length a)) with true by (symmetry; apply Z.ltb_lt; lia).
  reflexivity.
Qed.

Lemma array_write_inv (a a' : list Z) i v :
  array_write a i v = Some a' →
  0 <= i < Z.of_nat (length a) ∧ a' = <[Z.to_nat i := v]> a.
Proof.
  unfold array_write.
  destruct (Z.leb_spec 0 i), (Z.ltb_spec i (Z.of_nat (length a)));
    simpl; intros [= <-] || discriminate.
  split; [lia | reflexivity].
Qed.

Lemma array_write_length (a a' : list Z) i v :
  array_write a i v = Some a' → length a' = length a.
Proof.
  intros H. apply array_write_inv in H as [_ ->]. apply length_insert.
Qed.

Lemma array_read_Some (a : list Z) i :
  0 <= i < Z.of_nat (length a) →
  ∃ v, a !! Z.to_nat i = Some v ∧ array_read a i = Some v.
Proof.
  intros H. unfold array_read.
  replace (0 <=? i) with true by (symmetry; apply Z.leb_le; lia).
  destruct (lookup_lt_is_Some_2 a (Z.to_nat i)) as [v Hv]; [lia|].
  exists v. split; assumption.
Qed.

Lemma array_read_inv (a : list Z) i v :
  array_read a i = Some v →
  0 <= i < Z.of_nat (length a) ∧ a !! Z.to_nat i = Some v.
Proof.
  unfold array_read. destruct (Z.leb_spec 0 i); [|discriminate].
  intros Hv. split; [|exact Hv].
  apply lookup_lt_Some in Hv. lia.
Qed.

(** A write leaves every other element as it was. *)
Lemma array_write_other (a a' : list Z) i v (n : nat) :
  array_write a i v = Some a' → Z.of_nat n ≠ i → a' !! n = a !! n.
Proof.
  intros H Hne. apply array_write_inv in H as [Hi ->].
  apply list_lookup_insert_ne. lia.
Qed.

(** ** The font tables *)

Lemma SingleColumn_range charData nColumn :
  0 <= SingleColumn charData nColumn < 256.
Proof.
  unfold SingleColumn.
  apply (for_loop_inv (fun _ column => 0 <= column < 256)); [lia | lia |].
  intros i column _ _. apply to_u8_range.
Qed.

(** After [k] rounds, the low [2k] bits of the column are the low [k]
    bits of the source, each written twice. *)
Lemma DoubleColumn_bits charData nColumn n :
  0 <= n →
  Z.testbit (DoubleColumn charData nColumn) n
  = (n <? 16) && Z.testbit (SingleColumn charData nColumn) (n / 2).
Proof.
  intros Hn. unfold DoubleColumn.
  set (s := SingleColumn charData nColumn).
  revert n Hn.
  apply (for_loop_inv
           (fun k column =>
              ∀ n, 0 <= n →
                   Z.testbit column n = (n <? 2 * k) && Z.testbit s (n / 2)));
    [lia | |].
  - intros n Hn. rewrite Z.testbit_0_l.
    replace (n <? 2 * 0) with false by (symmetry; apply Z.ltb_ge; lia).
    reflexivity.
  - intros k column Hk IH n Hn.
    rewrite land1_testbit, to_u16_testbit by lia.
    rewrite !Z.lor_spec, IH by lia.
    rewrite !b2z_shiftl_testbit by lia.
    assert (Hdiv : n = 2 * k ∨ n = 2 * k + 1 → n / 2 = k)
      by (intros; Z.div_mod_to_equations; lia).
    destruct (Z.ltb_spec n (2 * k)), (Z.ltb_spec n (2 * (k + 1))),
      (Z.ltb_spec n 16), (Z.eqb_spec n (k * 2)), (Z.eqb_spec n (k * 2 + 1));
      try lia; simpl;
      rewrite ?andb_true_r, ?andb_false_r, ?orb_false_r; try reflexivity;
      rewrite Hdiv by lia; reflexivity.
Qed.

Lemma DoubleColumn_range charData nColumn :
  0 <= DoubleColumn charData nColumn < 65536.
Proof.
  unfold DoubleColumn.
  apply (for_loop_inv (fun _ column => 0 <= column < 65536)); [lia | lia |].
  intros i column _ _. apply to_u16_range.
Qed.

Lemma Font_at_Font F table nIndex j charData :
  0 <= nIndex → table !! Z.to_nat nIndex = Some charData → 0 <= j < 6 →
  Font_at (Font F table) nIndex j = Some (F charData j).
Proof.
  intros Hi Hg Hj. unfold Font_at, Font.
  replace (0 <=? nIndex) with true by (symmetry; apply Z.leb_le; lia).
  replace (0 <=? j) with true by (symmetry; apply Z.leb_le; lia).
  simpl. rewrite list_lookup_fmap, Hg. simpl.
  assert (Hc : j = 0 ∨ j = 1 ∨ j = 2 ∨ j = 3 ∨ j = 4 ∨ j = 5) by lia.
  destruct Hc as [->|[->|[->|[->|[->| ->]]]]]; reflexivity.
Qed.

(** C2. For every glyph [g] of the font and every column [c] in [0, 6),
    the entry of the double-height table is the 16-bit value whose bits
    [2i] and [2i+1] both equal bit [i] of the (8-bit) entry of the
    single-height table, for every [i] in [0, 8). *)
Theorem FontDouble_duplicates_FontSingle (g c : Z) :
  0 <= g < Z.of_nat (length Font6x8) →
  0 <= c < 6 →
  ∃ single double,
    Font_at FontSingle g c = Some single ∧
    Font_at FontDouble g c = Some double ∧
    0 <= single < 2 ^ 8 ∧ 0 <= double < 2 ^ 16 ∧
    ∀ i, 0 <= i < 8 →
         Z.testbit double (2 * i) = Z.testbit single i ∧
         Z.testbit double (2 * i + 1) = Z.testbit single i.
Proof.
  intros Hg Hc.
  destruct (lookup_lt_is_Some_2 Font6x8 (Z.to_nat g)) as [charData Hcd]; [lia|].
  exists (SingleColumn charData c), (DoubleColumn charData c).
  unfold FontSingle, FontDouble.
  rewrite !(Font_at_Font _ _ _ _ charData) by (assumption || lia).
  split; [reflexivity|]. split; [reflexivity|].
  split; [apply SingleColumn_range|]. split; [apply DoubleColumn_range|].
  intros i Hi. rewrite !DoubleColumn_bits by lia.
  replace (2 * i <? 16) with true by (symmetry; apply Z.ltb_lt; lia).
  replace (2 * i + 1 <? 16) with true by (symmetry; apply Z.ltb_lt; lia).
  simpl.
  replace (2 * i / 2) with i by (Z.div_mod_to_equations; lia).
  replace ((2 * i + 1) / 2) with i by (Z.div_mod_to_equations; lia).
  split; reflexivity.
Qed.

(** ** Level meters: the page values of one bar *)

Lemma TotalPages_32 : TotalPages 32 = 2. Proof. reflexivity. Qed.
Lemma TotalPages_64 : TotalPages 64 = 6. Proof. reflexivity. Qed.
Lemma BarHeight_32 : BarHeight 32 = 16. Proof. reflexivity. Qed.
Lemma BarHeight_64 : BarHeight 64 = 48. Proof. reflexivity. Qed.

(** A level in [0, 1] scales to a pixel count in [0, barHeight]. *)
Lemma LevelPixels_range (level : Q) barHeight :
  (0 <= level)%Q → (level <= 1)%Q → 0 <= barHeight <= 255 →
  ∃ pixels, LevelPixels level barHeight = Some pixels ∧ 0 <= pixels <= barHeight.
Proof.
  destruct level as [n d]. unfold Qle. simpl. intros H0 H1 Hb.
  unfold LevelPixels. simpl. rewrite Pos.mul_1_r.
  rewrite Z.quot_div_nonneg by nia.
  assert (Hlo : 0 <= n * barHeight / Z.pos d) by (apply Z.div_pos; nia).
  assert (Hhi : n * barHeight / Z.pos d <= barHeight)
    by (apply Z.div_le_upper_bound; nia).
  exists (n * barHeight / Z.pos d).
  replace (0 <=? n * barHeight / Z.pos d) with true
    by (symmetry; apply Z.leb_le; lia).
  replace (n * barHeight / Z.pos d <=? 255) with true
    by (symmetry; apply Z.leb_le; lia).
  split; [reflexivity | lia].
Qed.

(** A level equal to one half lights half of the bar. *)
Lemma LevelPixels_half (level : Q) barHeight :
  (level == 1 # 2)%Q → 0 <= barHeight <= 255 →
  LevelPixels level (2 * barHeight) = Some barHeight.
Proof.
  destruct level as [n d]. unfold Qeq. simpl. intros He Hb.
  unfold LevelPixels. simpl. rewrite Pos.mul_1_r.
  rewrite Z.quot_div_nonneg by nia.
  replace (n * (2 * barHeight)) with (barHeight * Z.pos d) by nia.
  rewrite Z.div_mul by lia.
  replace (0 <=? barHeight) with true by (symmetry; apply Z.leb_le; lia).
  replace (barHeight <=? 255) with true by (symmetry; apply Z.leb_le; lia).
  reflexivity.
Qed.

(** The page values that [BarPages] leaves, whatever the array held. *)
Lemma BarPages_spec totalPages partLevelPixels (pageValues0 : list Z) :
  0 <= partLevelPixels < 256 →
  Z.of_nat (length pageValues0) = totalPages →
  partLevelPixels / 8 <= totalPages →
  (0 < partLevelPixels mod 8 → partLevelPixels / 8 < totalPages) →
  ∃ pageValues,
    BarPages totalPages partLevelPixels pageValues0 = Some pageValues ∧
    length pageValues = length pageValues0 ∧
    (∀ j, 0 <= j < partLevelPixels / 8 →
          pageValues !! Z.to_nat j = Some 0xFF) ∧
    (∀ j, partLevelPixels / 8 <= j < totalPages →
          pageValues !! Z.to_nat j
          = Some (if (0 <? partLevelPixels mod 8) && (j =? partLevelPixels / 8)
                  then to_u8 (Z.shiftl 0xFF (8 - partLevelPixels mod 8))
                  else 0)).
Proof.
  intros Hpx Hlen Hfull Hrem. unfold BarPages.
  rewrite !to_u8_small by (Z.div_mod_to_equations; lia).
  assert (Hf0 : 0 <= partLevelPixels / 8) by (Z.div_mod_to_equations; lia).
  assert (Hr0 : 0 <= partLevelPixels mod 8 < 8) by (Z.div_mod_to_equations; lia).
  set (full := partLevelPixels / 8) in *.
  set (rem := partLevelPixels mod 8) in *.
  (* first loop: pages below [full] become 0xFF *)
  destruct (for_loopM_inv
              (fun j (pv : list Z) =>
                 length pv = length pageValues0 ∧
                 ∀ m, 0 <= m < j → pv !! Z.to_nat m = Some 0xFF)
              0 full (fun j pv => array_write pv j 0xFF) pageValues0)
    as (pv1 & Hrun1 & Hlen1 & Hones); [lia | split; [reflexivity | intros; lia] | |].
  { intros i pv Hi [Hl Hm]. rewrite array_write_Some by lia.
    eexists; split; [reflexivity|]. split; [rewrite length_insert; exact Hl|].
    intros m Hm'. destruct (decide (m = i)) as [->|Hne].
    - apply list_lookup_insert_eq. lia.
    - rewrite list_lookup_insert_ne by lia. apply Hm. lia. }
  rewrite Hrun1. simpl.
  (* second loop: pages from [full] up become 0 *)
  destruct (for_loopM_inv
              (fun j (pv : list Z) =>
                 length pv = length pageValues0 ∧
                 (∀ m, 0 <= m < full → pv !! Z.to_nat m = Some 0xFF) ∧
                 ∀ m, full <= m < j → pv !! Z.to_nat m = Some 0)
              full totalPages (fun j pv => array_write pv j 0) pv1)
    as (pv2 & Hrun2 & Hlen2 & Hones2 & Hzero);
    [lia | split; [exact Hlen1 | split; [exact Hones | intros; lia]] | |].
  { intros i pv Hi (Hl & Ho & Hz). rewrite array_write_Some by lia.
    eexists; split; [reflexivity|]. split; [rewrite length_insert; exact Hl|].
    split.
    - intros m Hm. rewrite list_lookup_insert_ne by lia. apply Ho. lia.
    - intros m Hm. destruct (decide (m = i)) as [->|Hne].
      + apply list_lookup_insert_eq. lia.
      + rewrite list_lookup_insert_ne by lia. apply Hz. lia. }
  rewrite Hrun2. simpl.
  destruct (Z.eqb_spec rem 0) as [Hz|Hnz]; simpl.
  - exists pv2. split; [reflexivity|]. split; [exact Hlen2|].
    split; [exact Hones2|]. intros j Hj.
    replace (0 <? rem) with false by (symmetry; apply Z.ltb_ge; lia).
    simpl. apply Hzero. lia.
  - rewrite array_write_Some by lia.
    eexists; split; [reflexivity|]. split; [rewrite length_insert; exact Hlen2|].
    split.
    + intros j Hj. rewrite list_lookup_insert_ne by lia. apply Hones2. lia.
    + intros j Hj.
      replace (0 <? rem) with true by (symmetry; apply Z.ltb_lt; lia). simpl.
      destruct (Z.eqb_spec j full) as [->|Hne].
      * apply list_lookup_insert_eq. lia.
      * rewrite list_lookup_insert_ne by lia. apply Hzero. lia.
Qed.

(** Two lists with the same elements at every index below their common
    length are equal. *)
Lemma list_eq_lookup_Z (a b : list Z) :
  length a = length b →
  (∀ j, 0 <= j < Z.of_nat (length a) → a !! Z.to_nat j = b !! Z.to_nat j) →
  a = b.
Proof.
  intros Hlen H. apply list_eq. intros i.
  destruct (Nat.lt_ge_cases i (length a)) as [Hlt|Hge].
  - specialize (H (Z.of_nat i)). rewrite Nat2Z.id in H. apply H. lia.
  - rewrite !lookup_ge_None_2 by lia. reflexivity.
Qed.

(** The initial contents of [pageValues] do not matter. *)
Lemma BarPages_init_irrelevant totalPages partLevelPixels (a b : list Z) :
  0 <= partLevelPixels < 256 →
  Z.of_nat (length a) = totalPages → Z.of_nat (length b) = totalPages →
  partLevelPixels / 8 <= totalPages →
  (0 < partLevelPixels mod 8 → partLevelPixels / 8 < totalPages) →
  BarPages totalPages partLevelPixels a = BarPages totalPages partLevelPixels b.
Proof.
  intros Hpx Ha Hb Hfull Hrem.
  destruct (BarPages_spec totalPages partLevelPixels a) as (pa & -> & La & Ha1 & Ha2);
    try assumption.
  destruct (BarPages_spec totalPages partLevelPixels b) as (pb & -> & Lb & Hb1 & Hb2);
    try assumption.
  f_equal. apply list_eq_lookup_Z; [lia|].
  intros j Hj.
  destruct (Z_lt_le_dec j (partLevelPixels / 8)).
  - rewrite Ha1, Hb1 by lia. reflexivity.
  - rewrite Ha2, Hb2 by lia. reflexivity.
Qed.

(** The partial mask has exactly the top [remainder] bits of the byte set. *)
Lemma partial_mask_bits remainder n :
  0 < remainder < 8 → 0 <= n →
  Z.testbit (to_u8 (Z.shiftl 0xFF (8 - remainder))) n
  = (8 - remainder <=? n) && (n <? 8).
Proof.
  intros Hr Hn. unfold to_u8. change 0xFF with (Z.ones 8).
  rewrite Z.land_spec, Z.shiftl_spec, !Z.testbit_ones by lia.
  destruct (Z.leb_spec (8 - remainder) n), (Z.ltb_spec n 8),
    (Z.leb_spec 0 n), (Z.leb_spec 0 (n - (8 - remainder))),
    (Z.ltb_spec (n - (8 - remainder)) 8); try lia; reflexivity.
Qed.

(** Pixel counts within the bar height keep every page index in range. *)
Lemma pages_in_range nHeight pixels :
  nHeight = 32 ∨ nHeight = 64 →
  0 <= pixels <= BarHeight nHeight →
  0 <= pixels < 256 ∧
  0 <= pixels / 8 <= TotalPages nHeight ∧
  (0 < pixels mod 8 → pixels / 8 < TotalPages nHeight).
Proof.
  intros [-> | ->];
    [rewrite BarHeight_32, TotalPages_32 | rewrite BarHeight_64, TotalPages_64];
    intros H; (split; [lia|]); Z.div_mod_to_equations; lia.
Qed.

(** C1. For a display of height 32 or 64 and a part level in [0, 1], with
    levelPixels = level * barHeight (at most barHeight),
    fullPages = levelPixels / 8 and remainder = levelPixels % 8, the bar
    rasterizer fills its page-value array so that pages 0 .. fullPages-1
    hold 0xFF and pages fullPages .. totalPages-1 hold 0, except that page
    fullPages holds the byte 0xFF << (8 - remainder) when remainder > 0.
    For level 1/2 and height 64 (bar height 48): fullPages = 3,
    remainder = 0, pages 0-2 are 0xFF and pages 3-5 are 0. *)
Theorem BarPages_fill_pattern (nHeight : Z) (pageValues0 : list Z) :
  nHeight = 32 ∨ nHeight = 64 →
  Z.of_nat (length pageValues0) = TotalPages nHeight →
  BarHeight nHeight = nHeight - 16 ∧
  (∀ level : Q,
     (0 <= level)%Q → (level <= 1)%Q →
     ∃ levelPixels,
       LevelPixels level (BarHeight nHeight) = Some levelPixels ∧
       0 <= levelPixels <= BarHeight nHeight) ∧
  (∀ levelPixels,
     0 <= levelPixels <= BarHeight nHeight →
     ∃ pageValues,
       BarPages (TotalPages nHeight) levelPixels pageValues0 = Some pageValues ∧
       Z.of_nat (length pageValues) = TotalPages nHeight ∧
       (∀ j, 0 <= j < levelPixels / 8 → pageValues !! Z.to_nat j = Some 0xFF) ∧
       (∀ j, levelPixels / 8 <= j < TotalPages nHeight →
             pageValues !! Z.to_nat j
             = Some (if (0 <? levelPixels mod 8) && (j =? levelPixels / 8)
                     then to_u8 (Z.shiftl 0xFF (8 - levelPixels mod 8))
                     else 0))) ∧
  (∀ level : Q,
     (level == 1 # 2)%Q → nHeight = 64 →
     LevelPixels level (BarHeight nHeight) = Some 24 ∧
     24 / 8 = 3 ∧ 24 mod 8 = 0 ∧
     BarPages (TotalPages nHeight) 24 pageValues0
     = Some [0xFF; 0xFF; 0xFF; 0x00; 0x00; 0x00]).
Proof.
  intros Hh Hlen.
  assert (Hbh : 0 <= BarHeight nHeight <= 255 ∧ BarHeight nHeight = nHeight - 16)
    by (destruct Hh as [-> | ->]; vm_compute; intuition discriminate).
  destruct Hbh as [Hbh Hbh'].
  assert (Hpattern :
            ∀ px, 0 <= px <= BarHeight nHeight →
                  ∃ pv, BarPages (TotalPages nHeight) px pageValues0 = Some pv ∧
                        Z.of_nat (length pv) = TotalPages nHeight ∧
                        (∀ j, 0 <= j < px / 8 → pv !! Z.to_nat j = Some 0xFF) ∧
                        (∀ j, px / 8 <= j < TotalPages nHeight →
                              pv !! Z.to_nat j
                              = Some (if (0 <? px mod 8) && (j =? px / 8)
                                      then to_u8 (Z.shiftl 0xFF (8 - px mod 8))
                                      else 0))).
  { intros px Hrange.
    destruct (pages_in_range nHeight px Hh Hrange) as (Hu8 & Hfull & Hrem).
    destruct (BarPages_spec (TotalPages nHeight) px pageValues0)
      as (pv & Hrun & Hlen' & Hones & Hrest); try assumption; [lia|].
    exists pv. split; [exact Hrun|]. split; [lia|]. split; assumption. }
  split; [exact Hbh'|]. split; [|split; [exact Hpattern|]].
  - intros level Hl0 Hl1. apply LevelPixels_range; assumption.
  - intros level Hhalf ->.
    rewrite TotalPages_64 in *. change (BarHeight 64) with (2 * 24) in *.
    split; [apply LevelPixels_half; [assumption | lia]|].
    split; [reflexivity|]. split; [reflexivity|].
    destruct (Hpattern 24) as (pv & -> & Hlen' & Hones & Hrest); [lia|].
    f_equal. apply list_eq_lookup_Z; [simpl; lia|].
    intros j Hj.
    assert (Hc : j = 0 ∨ j = 1 ∨ j = 2 ∨ j = 3 ∨ j = 4 ∨ j = 5) by lia.
    destruct Hc as [->|[->|[->|[->|[->| ->]]]]];
      first [ rewrite Hones by (vm_compute; intuition discriminate); reflexivity
            | rewrite Hrest by (vm_compute; intuition discriminate); reflexivity ].
Qed.

(** ** Level meters: the peak marker *)

Lemma lor_u8 a b : is_u8 a → is_u8 b → to_u8 (Z.lor a b) = Z.lor a b.
Proof.
  intros Ha Hb. unfold to_u8. rewrite Z.land_lor_distr_l.
  fold (to_u8 a) (to_u8 b). rewrite !to_u8_small by assumption. reflexivity.
Qed.

(** The peak meter reads and writes [pageValues] at [PeakIndex] only. *)
Lemma PeakMeter_unfold peakLevelPixels (pageValues : list Z) :
  0 < peakLevelPixels < 256 →
  PeakMeter true peakLevelPixels pageValues
  = (v ← array_read pageValues (PeakIndex peakLevelPixels);
     array_write pageValues (PeakIndex peakLevelPixels)
       (to_u8 (Z.lor v (if peakLevelPixels mod 8 =? 0 then 1
                        else Z.shiftl 1 (8 - peakLevelPixels mod 8))))).
Proof.
  intros Hp. unfold PeakMeter, PeakIndex.
  rewrite !to_u8_small by (Z.div_mod_to_equations; lia).
  destruct (Z.eqb_spec peakLevelPixels 0); [lia|]. simpl.
  destruct (peakLevelPixels mod 8 =? 0); reflexivity.
Qed.

(** It faults exactly when that index is outside the array. *)
Lemma PeakMeter_Some_iff peakLevelPixels (pageValues : list Z) :
  0 < peakLevelPixels < 256 →
  is_Some (PeakMeter true peakLevelPixels pageValues)
  ↔ 0 <= PeakIndex peakLevelPixels < Z.of_nat (length pageValues).
Proof.
  intros Hp. rewrite PeakMeter_unfold by assumption. split.
  - intros [pv Hpv].
    destruct (array_read pageValues (PeakIndex peakLevelPixels)) as [v|] eqn:Hr;
      [|discriminate].
    apply array_read_inv in Hr. tauto.
  - intros Hi. destruct (array_read_Some pageValues _ Hi) as (v & _ & ->).
    simpl. rewrite array_write_Some by assumption. eauto.
Qed.

Lemma PeakMeter_not_drawn bDrawPeaks peakLevelPixels (pageValues : list Z) :
  bDrawPeaks = false ∨ peakLevelPixels = 0 →
  PeakMeter bDrawPeaks peakLevelPixels pageValues = Some pageValues.
Proof.
  unfold PeakMeter. intros [-> | ->]; [reflexivity|].
  rewrite andb_false_r. reflexivity.
Qed.

(** C3. When the peak marker is drawn (peaks requested, peakPixels > 0),
    with peakPage = peakPixels / 8 and peakRemainder = peakPixels % 8: if
    peakRemainder > 0 the single bit 8 - peakRemainder is OR-ed into
    pageValues[peakPage]; if peakRemainder = 0, bit 0 is OR-ed into
    pageValues[peakPage - 1].  For peakPixels = 16 the bit lands in page 1
    (= peakPage - 1) and page 2 (= peakPage) keeps its value. *)
Theorem PeakMeter_marker (peakPixels : Z) (pageValues : list Z) :
  0 < peakPixels < 256 →
  Forall is_u8 pageValues →
  0 <= PeakIndex peakPixels < Z.of_nat (length pageValues) →
  let peakPage := peakPixels / 8 in
  let peakRemainder := peakPixels mod 8 in
  (0 < peakRemainder →
   ∃ old, pageValues !! Z.to_nat peakPage = Some old ∧
          PeakMeter true peakPixels pageValues
          = Some (<[Z.to_nat peakPage := Z.lor old (2 ^ (8 - peakRemainder))]>
                    pageValues)) ∧
  (peakRemainder = 0 →
   1 <= peakPage ∧
   ∃ old, pageValues !! Z.to_nat (peakPage - 1) = Some old ∧
          PeakMeter true peakPixels pageValues
          = Some (<[Z.to_nat (peakPage - 1) := Z.lor old (2 ^ 0)]> pageValues)) ∧
  (peakPixels = 16 →
   ∃ old pageValues',
     pageValues !! 1%nat = Some old ∧
     PeakMeter true peakPixels pageValues = Some pageValues' ∧
     pageValues' !! 1%nat = Some (Z.lor old 1) ∧
     pageValues' !! 2%nat = pageValues !! 2%nat).
Proof.
  intros Hp Hbytes Hidx peakPage peakRemainder.
  assert (Hr : 0 <= peakRemainder < 8)
    by (subst peakRemainder; Z.div_mod_to_equations; lia).
  assert (Hdraw := PeakMeter_unfold peakPixels pageValues Hp).
  destruct (array_read_Some pageValues _ Hidx) as (old & Hold & Hread).
  assert (Hu8 : is_u8 old).
  { rewrite Forall_lookup in Hbytes. exact (Hbytes _ _ Hold). }
  rewrite Hread in Hdraw. simpl in Hdraw.
  rewrite array_write_Some in Hdraw by assumption.
  assert (Hidx_eq : PeakIndex peakPixels
                    = if peakRemainder =? 0 then peakPage - 1 else peakPage).
  { unfold PeakIndex. subst peakPage peakRemainder.
    rewrite !to_u8_small by (Z.div_mod_to_equations; lia).
    destruct (peakPixels mod 8 =? 0); reflexivity. }
  fold peakRemainder in Hdraw.
  split; [|split].
  - intros Hpos. destruct (Z.eqb_spec peakRemainder 0) as [|_]; [lia|].
    rewrite Hidx_eq in *. exists old. split; [exact Hold|].
    rewrite Hdraw, Z.shiftl_1_l. rewrite lor_u8; [reflexivity | exact Hu8 |].
    split; [apply Z.pow_nonneg; lia|].
    change 256 with (2 ^ 8). apply Z.pow_lt_mono_r; lia.
  - intros Hzero. destruct (Z.eqb_spec peakRemainder 0) as [_|]; [|lia].
    rewrite Hidx_eq in *. split; [lia|]. exists old. split; [exact Hold|].
    rewrite Hdraw. rewrite lor_u8; [reflexivity | exact Hu8 |].
    unfold is_u8. lia.
  - intros ->. subst peakPage peakRemainder.
    change (PeakIndex 16) with 1 in *.
    change (16 mod 8 =? 0) with true in Hdraw. cbv iota in Hdraw.
    exists old. eexists. split; [exact Hold|]. split; [exact Hdraw|].
    rewrite lor_u8 by (assumption || unfold is_u8; lia).
    split.
    + apply list_lookup_insert_eq. lia.
    + apply list_lookup_insert_ne. discriminate.
Qed.

Lemma PeakIndex_range nHeight peakLevelPixels :
  nHeight = 32 ∨ nHeight = 64 →
  0 < peakLevelPixels <= BarHeight nHeight →
  0 <= PeakIndex peakLevelPixels < TotalPages nHeight.
Proof.
  intros Hh Hrange.
  destruct (pages_in_range nHeight peakLevelPixels Hh) as (Hu8 & Hfull & Hrem); [lia|].
  unfold PeakIndex.
  rewrite !to_u8_small by (Z.div_mod_to_equations; lia).
  destruct (Z.eqb_spec (peakLevelPixels mod 8) 0) as [Hz|Hnz]; simpl.
  - Z.div_mod_to_equations; lia.
  - assert (0 < peakLevelPixels mod 8) by (Z.div_mod_to_equations; lia). lia.
Qed.

(** Within the bar height, the peak meter does not fault. *)
Lemma PeakMeter_total nHeight bDrawPeaks peakLevelPixels (pageValues : list Z) :
  nHeight = 32 ∨ nHeight = 64 →
  0 <= peakLevelPixels <= BarHeight nHeight →
  Z.of_nat (length pageValues) = TotalPages nHeight →
  ∃ pageValues',
    PeakMeter bDrawPeaks peakLevelPixels pageValues = Some pageValues' ∧
    length pageValues' = length pageValues.
Proof.
  intros Hh Hrange Hlen.
  assert (Hbh : 0 <= BarHeight nHeight <= 255)
    by (destruct Hh as [-> | ->]; vm_compute; intuition discriminate).
  destruct (Z.eq_dec peakLevelPixels 0) as [->|Hne];
    [rewrite PeakMeter_not_drawn by auto; eauto|].
  destruct bDrawPeaks; [|rewrite PeakMeter_not_drawn by auto; eauto].
  destruct (proj2 (PeakMeter_Some_iff peakLevelPixels pageValues ltac:(lia)))
    as [pv Hpv].
  { rewrite Hlen. apply PeakIndex_range; [assumption | lia]. }
  exists pv. split; [exact Hpv|].
  rewrite PeakMeter_unfold in Hpv by lia.
  destruct (array_read pageValues (PeakIndex peakLevelPixels)); [|discriminate].
  simpl in Hpv. eapply array_write_length. exact Hpv.
Qed.

(** C9. With peak levels in [0, 1] (so that peakLevelPixels is at most the
    bar height) and a display of height 32 or 64, the peak-marker branch
    stays inside [pageValues]: the index it accesses lies in
    [0, totalPages); when peakLevelPixels > 0 is a multiple of 8 it is at
    least 8, so peakPage >= 1 and peakPage - 1 is not negative. *)
Theorem PeakMeter_index_in_bounds (nHeight : Z) :
  nHeight = 32 ∨ nHeight = 64 →
  (∀ peakLevel : Q,
     (0 <= peakLevel)%Q → (peakLevel <= 1)%Q →
     ∃ peakLevelPixels,
       LevelPixels peakLevel (BarHeight nHeight) = Some peakLevelPixels ∧
       0 <= peakLevelPixels <= BarHeight nHeight) ∧
  (∀ peakLevelPixels,
     0 < peakLevelPixels <= BarHeight nHeight →
     0 <= PeakIndex peakLevelPixels < TotalPages nHeight ∧
     (peakLevelPixels mod 8 = 0 →
      8 <= peakLevelPixels ∧ 1 <= peakLevelPixels / 8 ∧
      PeakIndex peakLevelPixels = peakLevelPixels / 8 - 1) ∧
     (∀ pageValues : list Z,
        is_Some (PeakMeter true peakLevelPixels pageValues)
        ↔ 0 <= PeakIndex peakLevelPixels < Z.of_nat (length pageValues))) ∧
  (∀ peakLevelPixels (bDrawPeaks : bool) (pageValues : list Z),
     0 <= peakLevelPixels <= BarHeight nHeight →
     Z.of_nat (length pageValues) = TotalPages nHeight →
     is_Some (PeakMeter bDrawPeaks peakLevelPixels pageValues)).
Proof.
  intros Hh.
  assert (Hbh : 0 <= BarHeight nHeight <= 255)
    by (destruct Hh as [-> | ->]; vm_compute; intuition discriminate).
  split; [|split].
  - intros peakLevel Hl0 Hl1. apply LevelPixels_range; assumption.
  - intros px Hrange.
    split; [apply PeakIndex_range; assumption|]. split.
    + intros Hz. unfold PeakIndex.
      rewrite !to_u8_small by (Z.div_mod_to_equations; lia).
      rewrite Hz. simpl. Z.div_mod_to_equations; lia.
    + intros pageValues. apply PeakMeter_Some_iff. lia.
  - intros px bDrawPeaks pageValues Hrange Hlen.
    destruct (PeakMeter_total nHeight bDrawPeaks px pageValues) as (pv & -> & _);
      eauto.
Qed.

(** ** Pixels *)

Lemma land_u8 a b : is_u8 a → to_u8 (Z.land a b) = Z.land a b.
Proof.
  intros Ha. unfold to_u8.
  rewrite <- Z.land_assoc, (Z.land_comm b), Z.land_assoc.
  fold (to_u8 a). rewrite to_u8_small by assumption. reflexivity.
Qed.

Lemma shiftl_1_testbit k n :
  0 <= k → 0 <= n → Z.testbit (Z.shiftl 1 k) n = (n =? k).
Proof. intros Hk Hn. apply (b2z_shiftl_testbit true); assumption. Qed.

Lemma shiftl_1_u8 k : 0 <= k < 8 → is_u8 (Z.shiftl 1 k).
Proof.
  intros Hk. rewrite Z.shiftl_1_l. split; [apply Z.pow_nonneg; lia|].
  change 256 with (2 ^ 8). apply Z.pow_lt_mono_r; lia.
Qed.

(** Setting a bit and then clearing it clears it. *)
Lemma lor_land_lnot a m : Z.land (Z.lor a m) (Z.lnot m) = Z.land a (Z.lnot m).
Proof.
  apply Z.bits_inj'. intros n Hn.
  rewrite !Z.land_spec, Z.lor_spec, Z.lnot_spec by lia.
  destruct (Z.testbit a n), (Z.testbit m n); reflexivity.
Qed.

Lemma land_lnot_clear a k :
  0 <= k → Z.testbit a k = false → Z.land a (Z.lnot (Z.shiftl 1 k)) = a.
Proof.
  intros Hk Ha. apply Z.bits_inj'. intros n Hn.
  rewrite Z.land_spec, Z.lnot_spec, shiftl_1_testbit by lia.
  destruct (Z.eqb_spec n k) as [->|_]; simpl.
  - rewrite Ha. reflexivity.
  - apply andb_true_r.
Qed.

(** The masks of [SetPixel] and [ClearPixel]. *)
Lemma mask_x nX : to_u8 (Z.land nX 0x7F) = nX mod 128.
Proof.
  change 0x7F with (Z.ones 7). rewrite Z.land_ones by lia.
  apply to_u8_small. change (2 ^ 7) with 128.
  pose proof (Z.mod_pos_bound nX 128). lia.
Qed.

Lemma mask_y nY : to_u8 (Z.land nY 0x3F) = nY mod 64.
Proof.
  change 0x3F with (Z.ones 6). rewrite Z.land_ones by lia.
  apply to_u8_small. change (2 ^ 6) with 64.
  pose proof (Z.mod_pos_bound nY 64). lia.
Qed.

(** For a [u8], [y & 0xF8] is [y & ~7]: the row of the first line of the
    page of [y]. *)
Lemma land_F8 y : is_u8 y → Z.land y 0xF8 = Z.land y (Z.lnot 7).
Proof.
  intros Hy. change 0xF8 with (Z.land 0xFF (Z.lnot 7)).
  rewrite Z.land_assoc. fold (to_u8 y). rewrite to_u8_small by assumption.
  reflexivity.
Qed.

Lemma land_lnot_7 y : Z.land y (Z.lnot 7) = 8 * (y / 8).
Proof.
  rewrite <- Z.ldiff_land. change 7 with (Z.ones 3).
  rewrite Z.ldiff_ones_r, Z.shiftl_mul_pow2, Z.shiftr_div_pow2 by lia.
  change (2 ^ 3) with 8. lia.
Qed.

Lemma PixelOffset_page x y :
  is_u8 y → PixelOffset x y = 1 + (y / 8) * Width + x.
Proof.
  intros Hy. unfold PixelOffset, Width.
  rewrite land_F8, land_lnot_7, Z.shiftl_mul_pow2 by (assumption || lia).
  change (2 ^ 4) with 16. lia.
Qed.

Lemma PixelOffset_range x y :
  0 <= x < 128 → 0 <= y < 64 → 0 < PixelOffset x y < FramebufferSize.
Proof.
  intros Hx Hy. rewrite PixelOffset_page by (unfold is_u8; lia).
  unfold Width. change FramebufferSize with 1025.
  Z.div_mod_to_equations; lia.
Qed.

Lemma set_Framebuffer_id lcd : set_Framebuffer lcd (m_Framebuffer lcd) = lcd.
Proof. destruct lcd; reflexivity. Qed.

Lemma set_Framebuffer_twice lcd fb fb' :
  set_Framebuffer (set_Framebuffer lcd fb) fb' = set_Framebuffer lcd fb'.
Proof. reflexivity. Qed.

Lemma WriteFramebuffer_inv lcd lcd' :
  WriteFramebuffer lcd = Some lcd' →
  lcd' = I2C_Write lcd (m_nAddress lcd)
           (take (Z.to_nat (m_nHeight lcd * 16 + 1)) (m_Framebuffer lcd)).
Proof.
  unfold WriteFramebuffer.
  destruct (_ <=? _); [intros [= <-]; reflexivity | discriminate].
Qed.

(** What [SetPixel] and [ClearPixel] do, on a framebuffer of the declared
    size. *)
Lemma SetPixel_eq (nX nY : Z) (lcd : CSSD1306) :
  Z.of_nat (length (m_Framebuffer lcd)) = FramebufferSize →
  let offset := PixelOffset (nX mod 128) (nY mod 64) in
  ∃ old,
    m_Framebuffer lcd !! Z.to_nat offset = Some old ∧
    SetPixel nX nY lcd
    = Some (set_Framebuffer lcd
              (<[Z.to_nat offset :=
                   to_u8 (Z.lor old (Z.shiftl 1 (Z.land (nY mod 64) 7)))]>
                 (m_Framebuffer lcd))).
Proof.
  intros Hlen offset. unfold SetPixel. rewrite mask_x, mask_y. fold offset.
  assert (Hoff : 0 < offset < FramebufferSize).
  { apply PixelOffset_range; apply Z.mod_pos_bound; lia. }
  destruct (array_read_Some (m_Framebuffer lcd) offset) as (old & Hold & ->); [lia|].
  exists old. split; [exact Hold|]. simpl.
  rewrite array_write_Some by lia. reflexivity.
Qed.

Lemma ClearPixel_eq (nX nY : Z) (lcd : CSSD1306) :
  Z.of_nat (length (m_Framebuffer lcd)) = FramebufferSize →
  let offset := PixelOffset (nX mod 128) (nY mod 64) in
  ∃ old,
    m_Framebuffer lcd !! Z.to_nat offset = Some old ∧
    ClearPixel nX nY lcd
    = Some (set_Framebuffer lcd
              (<[Z.to_nat offset :=
                   to_u8 (Z.land old
                            (Z.lnot (Z.shiftl 1 (Z.land (nY mod 64) 7))))]>
                 (m_Framebuffer lcd))).
Proof.
  intros Hlen offset. unfold ClearPixel. rewrite mask_x, mask_y. fold offset.
  assert (Hoff : 0 < offset < FramebufferSize).
  { apply PixelOffset_range; apply Z.mod_pos_bound; lia. }
  destruct (array_read_Some (m_Framebuffer lcd) offset) as (old & Hold & ->); [lia|].
  exists old. split; [exact Hold|]. simpl.
  rewrite array_write_Some by lia. reflexivity.
Qed.

Lemma land_7_range y : 0 <= Z.land y 7 < 8.
Proof.
  change 7 with (Z.ones 3). rewrite Z.land_ones by lia.
  apply Z.mod_pos_bound. reflexivity.
Qed.

(** C4. For every pair (nX, nY), [SetPixel] and [ClearPixel] reduce nX to
    its low 7 bits and nY to its low 6 bits and never fault; they then
    update the framebuffer byte at offset ((y & ~7) << 4) + x + 1 only,
    OR-ing in, respectively AND-ing out, the single bit y & 7. *)
Theorem SetPixel_ClearPixel_spec (nX nY : Z) (lcd : CSSD1306) :
  Z.of_nat (length (m_Framebuffer lcd)) = FramebufferSize →
  Forall is_u8 (m_Framebuffer lcd) →
  let x := Z.land nX (Z.ones 7) in
  let y := Z.land nY (Z.ones 6) in
  let offset := Z.shiftl (Z.land y (Z.lnot 7)) 4 + x + 1 in
  let bit := Z.land y 7 in
  0 <= x < 128 ∧ 0 <= y < 64 ∧
  0 < offset < FramebufferSize ∧ 0 <= bit < 8 ∧
  ∃ old,
    m_Framebuffer lcd !! Z.to_nat offset = Some old ∧
    SetPixel nX nY lcd
    = Some (set_Framebuffer lcd
              (<[Z.to_nat offset := Z.lor old (2 ^ bit)]> (m_Framebuffer lcd))) ∧
    ClearPixel nX nY lcd
    = Some (set_Framebuffer lcd
              (<[Z.to_nat offset := Z.land old (Z.lnot (2 ^ bit))]>
                 (m_Framebuffer lcd))).
Proof.
  intros Hlen Hbytes x y offset bit.
  assert (Hx : x = nX mod 128) by (subst x; apply Z.land_ones; lia).
  assert (Hy : y = nY mod 64) by (subst y; apply Z.land_ones; lia).
  assert (Hxr : 0 <= x < 128) by (rewrite Hx; apply Z.mod_pos_bound; lia).
  assert (Hyr : 0 <= y < 64) by (rewrite Hy; apply Z.mod_pos_bound; lia).
  assert (Hoff : offset = PixelOffset (nX mod 128) (nY mod 64)).
  { subst offset. unfold PixelOffset. rewrite <- Hx, <- Hy.
    rewrite land_F8 by (unfold is_u8; lia). reflexivity. }
  assert (Hbit : 0 <= bit < 8) by apply land_7_range.
  split; [exact Hxr|]. split; [exact Hyr|].
  split; [rewrite Hoff; apply PixelOffset_range; lia|].
  split; [exact Hbit|].
  destruct (SetPixel_eq nX nY lcd Hlen) as (old & Hold & Hset).
  destruct (ClearPixel_eq nX nY lcd Hlen) as (old' & Hold' & Hclr).
  rewrite <- Hoff, <- Hy in *. fold bit in Hset, Hclr.
  assert (old' = old) as -> by congruence.
  assert (Hu8 : is_u8 old).
  { rewrite Forall_lookup in Hbytes. exact (Hbytes _ _ Hold). }
  exists old. split; [exact Hold|].
  rewrite <- Z.shiftl_1_l.
  rewrite Hset, Hclr, lor_u8, land_u8 by (auto using shiftl_1_u8).
  split; reflexivity.
Qed.

(** C5 (as amended). For every framebuffer and every pair (nX, nY),
    [SetPixel] followed by [ClearPixel] leaves the addressed byte equal to
    its prior value with bit y & 7 cleared, and every other byte as it
    was; the prior framebuffer is restored exactly when that pixel was
    unset before.  Coordinates wrap: nX = 255 acts as nX = 127. *)
Theorem SetPixel_then_ClearPixel (nX nY : Z) (lcd : CSSD1306) :
  Z.of_nat (length (m_Framebuffer lcd)) = FramebufferSize →
  Forall is_u8 (m_Framebuffer lcd) →
  let offset := PixelOffset (nX mod 128) (nY mod 64) in
  let bit := Z.land (nY mod 64) 7 in
  ∃ old lcd1 lcd2,
    m_Framebuffer lcd !! Z.to_nat offset = Some old ∧
    SetPixel nX nY lcd = Some lcd1 ∧
    ClearPixel nX nY lcd1 = Some lcd2 ∧
    lcd2 = set_Framebuffer lcd
             (<[Z.to_nat offset := Z.land old (Z.lnot (2 ^ bit))]>
                (m_Framebuffer lcd)) ∧
    (Z.testbit old bit = false → lcd2 = lcd) ∧
    (Z.testbit old bit = true →
     m_Framebuffer lcd2 !! Z.to_nat offset ≠ Some old) ∧
    SetPixel (nX mod 128) (nY mod 64) lcd = Some lcd1 ∧
    ClearPixel (nX mod 128) (nY mod 64) lcd1 = Some lcd2 ∧
    (nX = 255 → SetPixel 127 nY lcd = Some lcd1 ∧
                ClearPixel 127 nY lcd1 = Some lcd2).
Proof.
  intros Hlen Hbytes offset bit.
  assert (Hoff : 0 < offset < FramebufferSize).
  { apply PixelOffset_range; apply Z.mod_pos_bound; lia. }
  assert (Hbit : 0 <= bit < 8) by apply land_7_range.
  destruct (SetPixel_eq nX nY lcd Hlen) as (old & Hold & Hset).
  fold offset bit in Hold, Hset.
  assert (Hu8 : is_u8 old).
  { rewrite Forall_lookup in Hbytes. exact (Hbytes _ _ Hold). }
  set (lcd1 := set_Framebuffer lcd
                 (<[Z.to_nat offset := to_u8 (Z.lor old (Z.shiftl 1 bit))]>
                    (m_Framebuffer lcd))) in *.
  assert (Hlen1 : Z.of_nat (length (m_Framebuffer lcd1)) = FramebufferSize).
  { subst lcd1. simpl. rewrite length_insert. exact Hlen. }
  destruct (ClearPixel_eq nX nY lcd1 Hlen1) as (new & Hnew & Hclr).
  fold offset bit in Hnew, Hclr.
  assert (new = to_u8 (Z.lor old (Z.shiftl 1 bit))) as ->.
  { subst lcd1. simpl in Hnew.
    rewrite list_lookup_insert_eq in Hnew by lia. congruence. }
  assert (Hfinal :
            set_Framebuffer lcd1
              (<[Z.to_nat offset :=
                   to_u8 (Z.land (to_u8 (Z.lor old (Z.shiftl 1 bit)))
                                 (Z.lnot (Z.shiftl 1 bit)))]>
                 (m_Framebuffer lcd1))
            = set_Framebuffer lcd
                (<[Z.to_nat offset := Z.land old (Z.lnot (2 ^ bit))]>
                   (m_Framebuffer lcd))).
  { subst lcd1. simpl. rewrite set_Framebuffer_twice.
    rewrite list_insert_insert_eq.
    rewrite lor_u8 by (auto using shiftl_1_u8).
    rewrite lor_land_lnot, land_u8 by assumption.
    rewrite Z.shiftl_1_l. reflexivity. }
  rewrite Hfinal in Hclr.
  assert (Hwrap : ∀ a b l, SetPixel (a mod 128) (b mod 64) l = SetPixel a b l
                           ∧ ClearPixel (a mod 128) (b mod 64) l = ClearPixel a b l).
  { intros a b l. unfold SetPixel, ClearPixel.
    rewrite !mask_x, !mask_y, !Z.mod_mod by lia. split; reflexivity. }
  exists old, lcd1. eexists.
  split; [exact Hold|]. split; [exact Hset|]. split; [exact Hclr|].
  split; [reflexivity|]. split; [|split; [|split; [|split]]].
  - intros Hunset. rewrite <- Z.shiftl_1_l, land_lnot_clear by (assumption || lia).
    rewrite list_insert_id by exact Hold. apply set_Framebuffer_id.
  - intros Hwas. simpl. rewrite list_lookup_insert_eq by lia.
    intros [= Heq]. rewrite <- Heq in Hwas at 1.
    rewrite Z.land_spec, Z.lnot_spec, <- Z.shiftl_1_l, shiftl_1_testbit in Hwas by lia.
    rewrite Z.eqb_refl, andb_false_r in Hwas. discriminate.
  - rewrite (proj1 (Hwrap nX nY lcd)). exact Hset.
  - rewrite (proj2 (Hwrap nX nY lcd1)). exact Hclr.
  - intros HX. 
    rewrite <- (proj1 (Hwrap 127 nY lcd)), <- (proj2 (Hwrap 127 nY lcd1)).
    change (127 mod 128) with (255 mod 128). rewrite <- HX.
    rewrite (proj1 (Hwrap nX nY lcd)), (proj2 (Hwrap nX nY lcd1)).
    split; assumption.
Qed.

(** ** Initialize *)

Lemma I2C_Write_foldl_log lcd nAddress (bytes : list Z) :
  i2c_writes (foldl (fun lcd byte => I2C_Write lcd nAddress [0x80; byte]) lcd bytes)
  = i2c_writes lcd ++ map (fun byte => (nAddress, [0x80; byte])) bytes.
Proof.
  revert lcd. induction bytes as [|b bytes IH]; intros lcd; simpl.
  - rewrite app_nil_r. reflexivity.
  - rewrite IH. simpl. rewrite <- app_assoc. reflexivity.
Qed.

Lemma I2C_Write_foldl_address lcd (bytes : list Z) :
  foldl (fun lcd byte => I2C_Write lcd (m_nAddress lcd) [0x80; byte]) lcd bytes
  = foldl (fun lcd' byte => I2C_Write lcd' (m_nAddress lcd) [0x80; byte]) lcd bytes.
Proof.
  generalize (eq_refl (m_nAddress lcd)).
  generalize (m_nAddress lcd) at 1 3 as a.
  revert lcd. induction bytes as [|b bytes IH]; intros lcd a Ha; simpl.
  - reflexivity.
  - rewrite <- Ha. apply IH. simpl. exact Ha.
Qed.

(** With a supported height, thirty two-byte command frames are sent. *)
Lemma Initialize_supported lcd :
  m_nHeight lcd = 32 ∨ m_nHeight lcd = 64 →
  fst (Initialize lcd) = true ∧
  i2c_writes (snd (Initialize lcd))
  = i2c_writes lcd
    ++ map (fun byte => (m_nAddress lcd, [0x80; byte]))
           (initSequence (m_nHeight lcd) (m_Rotation lcd)) ∧
  length (initSequence (m_nHeight lcd) (m_Rotation lcd)) = 30%nat.
Proof.
  intros Hh. unfold Initialize.
  replace ((m_nHeight lcd =? 32) || (m_nHeight lcd =? 64)) with true
    by (destruct Hh as [-> | ->]; reflexivity).
  cbn [negb fst snd]. split; [reflexivity|]. split; [|reflexivity].
  rewrite I2C_Write_foldl_address. apply I2C_Write_foldl_log.
Qed.

(** C8. When the configured height is neither 32 nor 64, [Initialize]
    returns failure and leaves the object as it was: nothing is written
    to the bus. *)
Theorem Initialize_unsupported_height (lcd : CSSD1306) :
  m_nHeight lcd ≠ 32 → m_nHeight lcd ≠ 64 →
  fst (Initialize lcd) = false ∧
  i2c_writes (snd (Initialize lcd)) = i2c_writes lcd ∧
  snd (Initialize lcd) = lcd.
Proof.
  intros H32 H64. unfold Initialize.
  destruct (Z.eqb_spec (m_nHeight lcd) 32); [contradiction|].
  destruct (Z.eqb_spec (m_nHeight lcd) 64); [contradiction|].
  simpl. repeat split.
Qed.

(** ** Writers *)

Lemma writes_array_write off v :
  writes (fun fb => array_write fb off v) (fun n => n = off) (fun _ v' => v' = v).
Proof.
  intros fb Hdom. specialize (Hdom off eq_refl).
  rewrite array_write_Some by assumption.
  eexists; split; [reflexivity|]. split; [apply length_insert|]. split.
  - intros n ->. exists v. split; [|reflexivity].
    apply list_lookup_insert_eq. lia.
  - intros n Hn. apply list_lookup_insert_ne. lia.
Qed.

Lemma writes_ext f g dom content :
  (∀ fb, f fb = g fb) → writes g dom content → writes f dom content.
Proof.
  intros Heq Hg fb Hdom. rewrite Heq. apply Hg. exact Hdom.
Qed.

(** A loop of writers on pairwise disjoint domains writes their union. *)
Lemma writes_for_loopM (body : Z → list Z → option (list Z))
    (dom : Z → Z → Prop) (content : Z → Z → Z → Prop) lo hi :
  (∀ k, lo <= k < hi → writes (body k) (dom k) (content k)) →
  (∀ k k' n, lo <= k < hi → lo <= k' < hi → k ≠ k' → dom k n → dom k' n → False) →
  writes (for_loopM lo hi body)
         (fun n => ∃ k, lo <= k < hi ∧ dom k n)
         (fun n v => ∃ k, lo <= k < hi ∧ dom k n ∧ content k n v).
Proof.
  intros Hbody Hdisj fb Hdom.
  destruct (Z_le_gt_dec lo hi) as [Hle|Hgt].
  2:{ rewrite for_loopM_empty by lia. exists fb.
      split; [reflexivity|]. split; [reflexivity|]. split; [|reflexivity].
      intros n (k & Hk & _). lia. }
  destruct (for_loopM_inv
              (fun j (fb1 : list Z) =>
                 length fb1 = length fb ∧
                 (∀ k n, lo <= k < j → dom k n →
                         ∃ v, fb1 !! Z.to_nat n = Some v ∧ content k n v) ∧
                 (∀ n : nat, ¬ (∃ k, lo <= k < j ∧ dom k (Z.of_nat n)) →
                             fb1 !! n = fb !! n))
              lo hi body fb) as (fb' & Hrun & Hlen & Hin & Hout); [exact Hle | | |].
  - split; [reflexivity|]. split; [intros; lia | reflexivity].
  - intros j fb1 Hj (Hlen1 & Hin1 & Hout1).
    destruct (Hbody j Hj fb1) as (fb2 & Hrun2 & Hlen2 & Hin2 & Hout2).
    { intros n Hn. rewrite Hlen1. apply Hdom. eauto. }
    exists fb2. split; [exact Hrun2|]. split; [congruence|]. split.
    + intros k n Hk Hkn. destruct (Z.eq_dec k j) as [->|Hne].
      * apply Hin2. exact Hkn.
      * assert (Hn : 0 <= n) by (apply (Hdom n); exists k; split; [lia|exact Hkn]).
        rewrite <- (Z2Nat.id n Hn) in Hkn.
        rewrite Hout2.
        -- apply Hin1; [lia|]. rewrite Z2Nat.id in Hkn by exact Hn. exact Hkn.
        -- intros Hjn. apply (Hdisj k j (Z.of_nat (Z.to_nat n))); auto; lia.
    + intros n Hn. rewrite Hout2.
      * apply Hout1. intros (k & Hk & Hkn). apply Hn. exists k. split; [lia|exact Hkn].
      * intros Hjn. apply Hn. exists j. split; [lia|exact Hjn].
  - exists fb'. split; [exact Hrun|]. split; [exact Hlen|]. split.
    + intros n (k & Hk & Hkn). destruct (Hin k n Hk Hkn) as (v & Hv & Hc).
      exists v. split; [exact Hv|]. exists k. auto.
    + exact Hout.
Qed.

Lemma writes_mono f (dom dom' : Z → Prop) (content content' : Z → Z → Prop) :
  (∀ n, dom n ↔ dom' n) →
  (∀ n v, dom n → content n v → content' n v) →
  writes f dom content → writes f dom' content'.
Proof.
  intros Hdom Hcontent Hf fb Hin.
  destruct (Hf fb) as (fb' & Hrun & Hlen & Hw & Hframe).
  { intros n Hn. apply Hin, Hdom, Hn. }
  exists fb'. split; [exact Hrun|]. split; [exact Hlen|]. split.
  - intros n Hn. apply Hdom in Hn. destruct (Hw n Hn) as (v & Hv & Hc). eauto.
  - intros n Hn. apply Hframe. intros Hd. apply Hn, Hdom, Hd.
Qed.

Lemma memset_writes start v n :
  writes (fun a => memset a start v n)
         (fun i => start <= i < start + n) (fun _ v' => v' = v).
Proof.
  unfold memset. eapply writes_mono; cycle 2.
  - apply (writes_for_loopM _ (fun k i => i = k) (fun _ _ v' => v' = v)).
    + intros k _. apply writes_array_write.
    + intros k k' i _ _ Hne -> Heq. congruence.
  - intros i. split; [intros (k & Hk & ->); exact Hk | eauto].
  - intros i v' _ (k & _ & _ & Hv). exact Hv.
Qed.

(** [Clear] zeroes the data bytes of the configured geometry and keeps
    the control byte. *)
Lemma Clear_zeroes lcd :
  0 <= m_nHeight lcd <= 64 →
  Z.of_nat (length (m_Framebuffer lcd)) = FramebufferSize →
  ∃ fb',
    Clear false lcd = Some (set_Framebuffer lcd fb') ∧
    fb' !! 0%nat = m_Framebuffer lcd !! 0%nat ∧
    ∀ i, 1 <= i <= 16 * m_nHeight lcd → fb' !! Z.to_nat i = Some 0.
Proof.
  intros Hh Hlen. unfold Clear.
  assert (Hn : Width * m_nHeight lcd / 8 = 16 * m_nHeight lcd)
    by (unfold Width; Z.div_mod_to_equations; lia).
  rewrite Hn.
  destruct (memset_writes 1 0 (16 * m_nHeight lcd) (m_Framebuffer lcd))
    as (fb' & -> & _ & Hin & Hout).
  { intros i Hi. rewrite Hlen. change FramebufferSize with 1025. lia. }
  exists fb'. split; [reflexivity|]. split.
  - apply Hout. simpl. lia.
  - intros i Hi. destruct (Hin i) as (v & Hv & ->); [lia | exact Hv].
Qed.

(** ** Level meters: the bars in the framebuffer *)

(** The byte of bar [i], column [j], row [k]: display page
    [totalPages - 1 - k] below the first row, column
    [BarOffset + i * (BarWidth + BarSpacing) + j]. *)
Lemma BarByteOffset_page nFirstRow totalPages i j k :
  BarByteOffset (nFirstRow * Width) totalPages i j k + 1
  = PageByte (nFirstRow + (totalPages - 1 - k))
             (BarOffset + i * (BarWidth + BarSpacing) + j).
Proof. unfold BarByteOffset, PageByte, Width. lia. Qed.

Lemma DrawBar_writes firstPageOffset totalPages i (pageValues : list Z) :
  Z.of_nat (length pageValues) = totalPages →
  writes (DrawBar firstPageOffset totalPages i pageValues)
    (fun n => ∃ j k, 0 <= j < BarWidth ∧ 0 <= k < totalPages ∧
                     n = BarByteOffset firstPageOffset totalPages i j k + 1)
    (fun n v => ∃ j k, 0 <= j < BarWidth ∧ 0 <= k < totalPages ∧
                       n = BarByteOffset firstPageOffset totalPages i j k + 1 ∧
                       pageValues !! Z.to_nat k = Some v).
Proof.
  intros Hlen. unfold DrawBar.
  eapply writes_mono; cycle 2.
  - apply writes_for_loopM
      with (dom := fun j n =>
                     ∃ k, 0 <= k < totalPages ∧
                          n = BarByteOffset firstPageOffset totalPages i j k + 1)
           (content := fun j n v =>
                     ∃ k, 0 <= k < totalPages ∧
                          n = BarByteOffset firstPageOffset totalPages i j k + 1 ∧
                          pageValues !! Z.to_nat k = Some v).
    + intros j Hj.
      apply (writes_for_loopM _
               (fun k n => n = BarByteOffset firstPageOffset totalPages i j k + 1)
               (fun k _ v => pageValues !! Z.to_nat k = Some v)).
      * intros k Hk.
        destruct (array_read_Some pageValues k) as (v & Hv & Hread); [lia|].
        eapply writes_ext; [intros fb; rewrite Hread; reflexivity|].
        eapply writes_mono; [| |apply writes_array_write].
        -- intros n. simpl. reflexivity.
        -- intros n v' _ ->. exact Hv.
      * intros k k' n Hk Hk' Hne -> Heq.
        unfold BarByteOffset, Width in Heq. lia.
    + intros j j' n Hj Hj' Hne (k & Hk & ->) (k' & Hk' & Heq).
      unfold BarByteOffset, Width, BarWidth in *. lia.
  - intros n. split.
    + intros (j & Hj & k & Hk & Hn). eauto 6.
    + intros (j & k & Hj & Hk & Hn). eauto 6.
  - intros n v _ (j & Hj & _ & k & Hk & Hn & Hv). eauto 8.
Qed.

(** Under the preconditions of the caller, the page values of every part
    are computed without fault. *)
Lemma PartPageValues_total lcd bDrawPeaks i :
  m_nHeight lcd = 32 ∨ m_nHeight lcd = 64 →
  levels_ok (base lcd) →
  0 <= i < 9 →
  ∃ pageValues,
    PartPageValues lcd bDrawPeaks i = Some pageValues ∧
    Z.of_nat (length pageValues) = TotalPages (m_nHeight lcd).
Proof.
  intros Hh (Hn1 & Hn2 & Hl1 & Hl2) Hi. unfold PartPageValues, PageValues.
  assert (Hbh : 0 <= BarHeight (m_nHeight lcd) <= 255)
    by (destruct Hh as [-> | ->]; vm_compute; intuition discriminate).
  assert (Ht : 0 <= TotalPages (m_nHeight lcd))
    by (destruct Hh as [-> | ->]; vm_compute; intuition discriminate).
  destruct (lookup_lt_is_Some_2 (m_PartLevels (base lcd)) (Z.to_nat i))
    as [part Hpart]; [lia|].
  destruct (lookup_lt_is_Some_2 (m_PeakLevels (base lcd)) (Z.to_nat i))
    as [peak Hpeak]; [lia|].
  rewrite Hpart, Hpeak. simpl.
  rewrite Forall_lookup in Hl1, Hl2.
  destruct (Hl1 _ _ Hpart) as [Hp0 Hp1]. destruct (Hl2 _ _ Hpeak) as [Hk0 Hk1].
  destruct (LevelPixels_range part (BarHeight (m_nHeight lcd)))
    as (px & -> & Hpx); try assumption.
  destruct (LevelPixels_range peak (BarHeight (m_nHeight lcd)))
    as (pk & -> & Hpk); try assumption.
  simpl.
  destruct (pages_in_range _ px Hh Hpx) as (Hu8 & Hfull & Hrem).
  destruct (BarPages_spec (TotalPages (m_nHeight lcd)) px
              (replicate (Z.to_nat (TotalPages (m_nHeight lcd))) 0))
    as (pv & -> & Hlen & _); try assumption; try lia.
  { rewrite length_replicate. lia. }
  simpl. rewrite length_replicate in Hlen.
  destruct (PeakMeter_total (m_nHeight lcd) bDrawPeaks pk pv)
    as (pv' & -> & Hlen'); try assumption; try lia.
  exists pv'. split; [reflexivity | lia].
Qed.

(** [DrawPartLevels] as a writer of the framebuffer. *)
Lemma DrawPartLevels_writes nFirstRow bDrawPeaks lcd :
  m_nHeight lcd = 32 ∨ m_nHeight lcd = 64 →
  levels_ok (base lcd) →
  let t := TotalPages (m_nHeight lcd) in
  writes (fun fb =>
            for_loopM 0 9
              (fun i fb =>
                 pageValues ← PartPageValues lcd bDrawPeaks i;
                 DrawBar (nFirstRow * Width) t i pageValues fb) fb)
    (fun n => ∃ i j k, 0 <= i < 9 ∧ 0 <= j < BarWidth ∧ 0 <= k < t ∧
                       n = BarByteOffset (nFirstRow * Width) t i j k + 1)
    (fun n v => ∃ i j k pageValues,
                  0 <= i < 9 ∧ 0 <= j < BarWidth ∧ 0 <= k < t ∧
                  n = BarByteOffset (nFirstRow * Width) t i j k + 1 ∧
                  PartPageValues lcd bDrawPeaks i = Some pageValues ∧
                  pageValues !! Z.to_nat k = Some v).
Proof.
  intros Hh Hlevels t.
  eapply writes_mono; cycle 2.
  - apply writes_for_loopM
      with (dom := fun i n => ∃ j k, 0 <= j < BarWidth ∧ 0 <= k < t ∧
                     n = BarByteOffset (nFirstRow * Width) t i j k + 1)
           (content := fun i n v => ∃ j k pageValues,
                     0 <= j < BarWidth ∧ 0 <= k < t ∧
                     n = BarByteOffset (nFirstRow * Width) t i j k + 1 ∧
                     PartPageValues lcd bDrawPeaks i = Some pageValues ∧
                     pageValues !! Z.to_nat k = Some v).
    + intros i Hi.
      destruct (PartPageValues_total lcd bDrawPeaks i Hh Hlevels Hi)
        as (pv & Hpv & Hlen).
      eapply writes_ext; [intros fb; rewrite Hpv; reflexivity|].
      eapply writes_mono; [| |apply DrawBar_writes; exact Hlen].
      * intros n. simpl. reflexivity.
      * intros n v _ (j & k & Hj & Hk & Hn & Hv). exists j, k, pv. auto 6.
    + intros i i' n Hi Hi' Hne (j & k & Hj & Hk & ->) (j' & k' & Hj' & Hk' & Heq).
      unfold BarByteOffset, Width, BarWidth, BarSpacing in *. lia.
  - intros n. split.
    + intros (i & Hi & j & k & Hj & Hk & Hn). eauto 8.
    + intros (i & j & k & Hi & Hj & Hk & Hn). eauto 8.
  - intros n v _ (i & Hi & _ & j & k & pv & Hj & Hk & Hn & Hpv & Hv).
    exists i, j, k, pv. auto 8.
Qed.

(** C6 (as amended). The bar rasterizer uses totalPages = height/8 - 2
    pages of bar height (barHeight = height - 16 pixels).  Called with
    first row 0 on a display of height 32 or 64, it writes row k of every
    bar into display page totalPages - 1 - k, so the bars fill pages
    0 .. totalPages - 1, from the top of the display; every byte of the
    pages from totalPages on, and every byte left or right of the bar
    columns, is left as it was.  The two page rows without bars are
    therefore the last two pages of the display, below the bars. *)
Theorem DrawPartLevels_bar_region (bDrawPeaks : bool) (lcd : CSSD1306) :
  m_nHeight lcd = 32 ∨ m_nHeight lcd = 64 →
  Z.of_nat (length (m_Framebuffer lcd)) = FramebufferSize →
  levels_ok (base lcd) →
  let totalPages := TotalPages (m_nHeight lcd) in
  totalPages = m_nHeight lcd / 8 - 2 ∧
  BarHeight (m_nHeight lcd) = m_nHeight lcd - 16 ∧
  ∃ fb',
    DrawPartLevels 0 bDrawPeaks lcd = Some (set_Framebuffer lcd fb') ∧
    length fb' = length (m_Framebuffer lcd) ∧
    (∀ i j k,
       0 <= i < 9 → 0 <= j < BarWidth → 0 <= k < totalPages →
       ∃ pageValues v,
         PartPageValues lcd bDrawPeaks i = Some pageValues ∧
         pageValues !! Z.to_nat k = Some v ∧
         fb' !! Z.to_nat (PageByte (totalPages - 1 - k)
                                   (BarOffset + i * (BarWidth + BarSpacing) + j))
         = Some v) ∧
    (∀ page column,
       0 <= page → 0 <= column < Width →
       totalPages <= page ∨ column < BarOffset ∨ Width - BarOffset <= column →
       fb' !! Z.to_nat (PageByte page column)
       = m_Framebuffer lcd !! Z.to_nat (PageByte page column)) ∧
    (∀ column,
       0 <= column < Width →
       fb' !! Z.to_nat (PageByte (m_nHeight lcd / 8 - 2) column)
       = m_Framebuffer lcd !! Z.to_nat (PageByte (m_nHeight lcd / 8 - 2) column) ∧
       fb' !! Z.to_nat (PageByte (m_nHeight lcd / 8 - 1) column)
       = m_Framebuffer lcd !! Z.to_nat (PageByte (m_nHeight lcd / 8 - 1) column)).
Proof.
  intros Hh Hlen Hlevels totalPages.
  assert (Ht : totalPages = m_nHeight lcd / 8 - 2 ∧ 0 < totalPages <= 6 ∧
               BarHeight (m_nHeight lcd) = m_nHeight lcd - 16).
  { subst totalPages. destruct Hh as [-> | ->]; vm_compute;
      intuition discriminate. }
  destruct Ht as (Ht & Htr & Hbh).
  split; [exact Ht|]. split; [exact Hbh|].
  destruct (DrawPartLevels_writes 0 bDrawPeaks lcd Hh Hlevels (m_Framebuffer lcd))
    as (fb' & Hrun & Hlen' & Hin & Hout).
  { fold totalPages. intros n (i & j & k & Hi & Hj & Hk & ->).
    rewrite Hlen. change FramebufferSize with 1025.
    unfold BarByteOffset, Width, BarWidth, BarSpacing, BarOffset in *. lia. }
  fold totalPages in Hrun, Hin, Hout.
  assert (Hframe : ∀ page column,
             0 <= page → 0 <= column < Width →
             totalPages <= page ∨ column < BarOffset ∨ Width - BarOffset <= column →
             fb' !! Z.to_nat (PageByte page column)
             = m_Framebuffer lcd !! Z.to_nat (PageByte page column)).
  { intros page column Hp Hc Hor. apply Hout.
    intros (i & j & k & Hi & Hj & Hk & Heq).
    unfold PageByte, BarByteOffset, Width, BarWidth, BarSpacing, BarOffset in *.
    lia. }
  exists fb'. split; [|split; [exact Hlen'|split; [|split; [exact Hframe|]]]].
  - unfold DrawPartLevels. fold totalPages. rewrite Hrun. reflexivity.
  - intros i j k Hi Hj Hk.
    rewrite <- (Z.add_0_l (totalPages - 1 - k)), <- BarByteOffset_page.
    destruct (Hin (BarByteOffset (0 * Width) totalPages i j k + 1))
      as (v & Hv & i' & j' & k' & pv & Hi' & Hj' & Hk' & Heq & Hpv & Hpvk).
    { exists i, j, k. auto. }
    assert (i' = i ∧ k' = k) as [-> ->].
    { unfold BarByteOffset, Width, BarWidth, BarSpacing, BarOffset in *. lia. }
    exists pv, v. auto.
  - intros column Hc. rewrite <- Ht.
    replace (m_nHeight lcd / 8 - 1) with (totalPages + 1) by lia.
    split; apply Hframe; lia.
Qed.

(** ** The glyph blitter *)

Lemma DrawCharOffset_positive nCursorX nCursorY bDoubleWidth i :
  0 <= nCursorX → 0 <= nCursorY → 0 <= i →
  0 < DrawCharOffset nCursorX nCursorY bDoubleWidth i.
Proof.
  intros. unfold DrawCharOffset, Width. destruct bDoubleWidth; nia.
Qed.

(** [DrawChar] succeeds when the glyph is in the font and the cell lies
    inside the framebuffer. *)
Lemma DrawChar_total chChar nCursorX nCursorY bInverted bDoubleWidth lcd :
  GlyphIndex chChar < Z.of_nat (length Font6x8) →
  0 <= nCursorX → 0 <= nCursorY →
  DrawCharOffset nCursorX nCursorY bDoubleWidth 5 + Width + 1
  < Z.of_nat (length (m_Framebuffer lcd)) →
  ∃ fb', DrawChar chChar nCursorX nCursorY bInverted bDoubleWidth lcd
         = Some (set_Framebuffer lcd fb') ∧
         length fb' = length (m_Framebuffer lcd).
Proof.
  intros Hglyph Hx Hy Hfit. unfold DrawChar, GlyphIndex in *.
  set (c := if chChar =? 0xFF then 0x80 else chChar) in *.
  assert (Hidx : 0 <= to_u8 (c - 32)) by apply to_u8_range.
  destruct (lookup_lt_is_Some_2 Font6x8 (Z.to_nat (to_u8 (c - 32))))
    as [charData Hcd]; [lia|].
  match goal with
  | |- context [for_loopM 0 6 ?body ?fb] =>
      destruct (for_loopM_inv
                  (fun _ (fb1 : list Z) => length fb1 = length (m_Framebuffer lcd))
                  0 6 body fb) as (fb' & Hrun & Hlen); [lia | reflexivity | |]
  end.
  - intros i fb1 Hi Hl.
    unfold FontDouble. rewrite (Font_at_Font _ _ _ _ charData) by (assumption || lia).
    simpl.
    pose proof (DrawCharOffset_positive nCursorX nCursorY bDoubleWidth i Hx Hy
                  ltac:(lia)) as Hpos.
    assert (Hmax : DrawCharOffset nCursorX nCursorY bDoubleWidth i
                   <= DrawCharOffset nCursorX nCursorY bDoubleWidth 5)
      by (unfold DrawCharOffset; destruct bDoubleWidth; lia).
    unfold Width in *.
    rewrite array_write_Some by lia. simpl.
    rewrite array_write_Some by (rewrite length_insert; lia). simpl.
    destruct bDoubleWidth.
    + match goal with |- context [array_read ?a ?o] =>
        destruct (array_read_Some a o) as (v1 & _ & ->);
          [rewrite !length_insert; lia|] end.
      simpl. rewrite array_write_Some by (rewrite !length_insert; lia). simpl.
      match goal with |- context [array_read ?a ?o] =>
        destruct (array_read_Some a o) as (v2 & _ & ->);
          [rewrite !length_insert; lia|] end.
      simpl. rewrite array_write_Some by (rewrite !length_insert; lia).
      eexists; split; [reflexivity|]. rewrite !length_insert. exact Hl.
    + eexists; split; [reflexivity|]. rewrite !length_insert. exact Hl.
  - exists fb'. rewrite Hrun. split; [reflexivity | exact Hlen].
Qed.

(** ** Print *)

Lemma BlitCells_app chars1 chars2 x y lcd :
  BlitCells (chars1 ++ chars2) x y lcd
  = (lcd ← BlitCells chars1 x y lcd;
     BlitCells chars2 (x + Z.of_nat (length chars1)) y lcd).
Proof.
  revert x lcd. induction chars1 as [|c chars1 IH]; intros x lcd; simpl.
  - rewrite Z.add_0_r. reflexivity.
  - destruct (DrawChar c x y _ _ lcd) as [lcd1|]; simpl; [|reflexivity].
    rewrite IH. replace (x + 1 + Z.of_nat (length chars1))
      with (x + Z.pos (Pos.of_succ_nat (length chars1))) by lia.
    reflexivity.
Qed.

(** The first loop of [Print] blits the string up to column 20 and leaves
    the cursor behind the last cell drawn. *)
Lemma Print_chars_eq pText nCursorX nCursorY lcd :
  0 <= nCursorX <= 20 →
  Print_chars pText nCursorX nCursorY lcd
  = (let blitted := take (Z.to_nat (20 - nCursorX)) (c_str pText) in
     lcd ← BlitCells blitted nCursorX nCursorY lcd;
     Some (nCursorX + Z.of_nat (length blitted), lcd)).
Proof.
  revert nCursorX lcd.
  induction pText as [|c pText IH]; intros x lcd Hx; simpl.
  - rewrite take_nil. simpl. rewrite Z.add_0_r. reflexivity.
  - destruct (Z.eqb_spec c 0) as [Hc|Hc]; simpl.
    + rewrite take_nil. simpl. rewrite Z.add_0_r. reflexivity.
    + destruct (Z.ltb_spec x 20) as [Hlt|Hge].
      * replace (Z.to_nat (20 - x)) with (S (Z.to_nat (20 - (x + 1)))) by lia.
        simpl.
        destruct (DrawChar c x nCursorY _ _ lcd) as [lcd1|]; simpl; [|reflexivity].
        rewrite to_u8_small by lia. rewrite IH by lia. simpl.
        destruct (BlitCells _ (x + 1) nCursorY lcd1) as [lcd2|]; simpl;
          [|reflexivity].
        do 2 f_equal. lia.
      * replace (Z.to_nat (20 - x)) with O by lia. simpl.
        rewrite Z.add_0_r. reflexivity.
Qed.

(** The second loop pads with spaces up to column 20. *)
Lemma clear_line_eq n x y lcd :
  for_stepsM n x
    (fun x lcd =>
       DrawChar 32 x y DrawChar_bInverted_default DrawChar_bDoubleWidth_default lcd)
    lcd
  = BlitCells (replicate n 32) x y lcd.
Proof.
  revert x lcd. induction n as [|n IH]; intros x lcd; simpl; [reflexivity|].
  destruct (DrawChar 32 x y _ _ lcd) as [lcd1|]; simpl; [apply IH | reflexivity].
Qed.

Lemma Print_eq_spec pText nCursorX nCursorY bClearLine bImmediate lcd :
  0 <= nCursorX <= 20 →
  Print pText nCursorX nCursorY bClearLine bImmediate lcd
  = Print_spec pText nCursorX nCursorY bClearLine bImmediate lcd.
Proof.
  intros Hx. unfold Print, Print_spec.
  rewrite Print_chars_eq by exact Hx. cbv zeta.
  destruct (BlitCells _ nCursorX nCursorY lcd) as [lcd1|]; simpl; [|reflexivity].
  destruct bClearLine; [|reflexivity].
  unfold for_loopM. rewrite clear_line_eq. reflexivity.
Qed.

(** Drawing changes nothing but the framebuffer: it never touches the
    bus. *)
Lemma DrawChar_only_Framebuffer chChar nCursorX nCursorY bInverted bDoubleWidth
    lcd lcd' :
  DrawChar chChar nCursorX nCursorY bInverted bDoubleWidth lcd = Some lcd' →
  lcd' = set_Framebuffer lcd (m_Framebuffer lcd').
Proof.
  unfold DrawChar. intros H. apply bind_Some in H as (fb' & _ & [= <-]).
  reflexivity.
Qed.

Lemma BlitCells_only_Framebuffer chars x y lcd lcd' :
  BlitCells chars x y lcd = Some lcd' →
  lcd' = set_Framebuffer lcd (m_Framebuffer lcd').
Proof.
  revert x lcd. induction chars as [|c chars IH]; intros x lcd; simpl.
  - intros [= <-]. symmetry. apply set_Framebuffer_id.
  - intros H. apply bind_Some in H as (lcd1 & Hdraw & Hrest).
    apply DrawChar_only_Framebuffer in Hdraw. apply IH in Hrest.
    rewrite Hrest, Hdraw. reflexivity.
Qed.

Lemma BlitCells_total chars x y lcd :
  Forall (fun c => GlyphIndex c < Z.of_nat (length Font6x8)) chars →
  0 <= x → 0 <= y →
  DrawCharOffset (x + Z.of_nat (length chars) - 1) y
                 DrawChar_bDoubleWidth_default 5 + Width + 1
  < Z.of_nat (length (m_Framebuffer lcd)) →
  ∃ lcd', BlitCells chars x y lcd = Some lcd'.
Proof.
  revert x lcd. induction chars as [|c chars IH]; intros x lcd Hg Hx Hy Hfit;
    simpl; [eauto|].
  apply Forall_cons in Hg as [Hc Hg].
  destruct (DrawChar_total c x y DrawChar_bInverted_default
              DrawChar_bDoubleWidth_default lcd) as (fb1 & -> & Hl1);
    try assumption.
  { revert Hfit. unfold DrawCharOffset, Width. simpl length.
    destruct DrawChar_bDoubleWidth_default; lia. }
  simpl. apply IH; try assumption; [lia|].
  simpl. rewrite Hl1. revert Hfit. simpl length.
  replace (x + 1 + Z.of_nat (length chars) - 1)
    with (x + Z.of_nat (S (length chars)) - 1) by lia.
  auto.
Qed.

(** C7. For a string and a starting cell (x, y) with x < 20, [Print] blits
    the characters of the string left to right from cell (x, y) until the
    string ends or column 20 is reached; with clearLine it then fills
    every remaining cell up to column 20 with the space glyph; it flushes
    the framebuffer to the bus exactly when immediate is set.
    Print("HELLO", 0, 0, true, false) blits five glyphs, fills columns
    5-19 with spaces and writes nothing to the bus. *)
Theorem Print_blits_pads_flushes (pText : list Z) (nCursorX nCursorY : Z)
    (bClearLine bImmediate : bool) (lcd : CSSD1306) :
  0 <= nCursorX < 20 →
  Print pText nCursorX nCursorY bClearLine bImmediate lcd
  = Print_spec pText nCursorX nCursorY bClearLine bImmediate lcd ∧
  (∀ lcd',
     Print pText nCursorX nCursorY bClearLine bImmediate lcd = Some lcd' →
     i2c_writes lcd'
     = i2c_writes lcd
       ++ (if bImmediate
           then [(m_nAddress lcd,
                  take (Z.to_nat (m_nHeight lcd * 16 + 1)) (m_Framebuffer lcd'))]
           else [])) ∧
  (pText = [72; 69; 76; 76; 79] → nCursorX = 0 → nCursorY = 0 →
   bClearLine = true → bImmediate = false →
   48 <= Z.of_nat (length Font6x8) →
   Z.of_nat (length (m_Framebuffer lcd)) = FramebufferSize →
   ∃ lcd5 lcd',
     BlitCells [72; 69; 76; 76; 79] 0 0 lcd = Some lcd5 ∧
     BlitCells (replicate 15 32) 5 0 lcd5 = Some lcd' ∧
     Print pText nCursorX nCursorY bClearLine bImmediate lcd = Some lcd' ∧
     i2c_writes lcd' = i2c_writes lcd).
Proof.
  intros Hx.
  assert (Heq := Print_eq_spec pText nCursorX nCursorY bClearLine bImmediate lcd
                   ltac:(lia)).
  split; [exact Heq|]. split.
  - intros lcd' Hrun. rewrite Heq in Hrun. unfold Print_spec in Hrun.
    cbv zeta in Hrun.
    apply bind_Some in Hrun as (lcd1 & Hblit & Hrun).
    apply bind_Some in Hrun as (lcd2 & Hpad & Hrun).
    apply BlitCells_only_Framebuffer in Hblit.
    assert (Hpad' : lcd2 = set_Framebuffer lcd1 (m_Framebuffer lcd2)).
    { destruct bClearLine.
      - apply BlitCells_only_Framebuffer in Hpad. exact Hpad.
      - injection Hpad as <-. symmetry. apply set_Framebuffer_id. }
    assert (Hlcd2 : i2c_writes lcd2 = i2c_writes lcd ∧
                    m_nAddress lcd2 = m_nAddress lcd ∧
                    m_nHeight lcd2 = m_nHeight lcd)
      by (rewrite Hpad', Hblit; auto).
    destruct Hlcd2 as (Hbus & Haddr & Hheight).
    destruct bImmediate.
    + apply WriteFramebuffer_inv in Hrun as ->. simpl.
      rewrite Hbus, Haddr, Hheight. reflexivity.
    + injection Hrun as <-. rewrite app_nil_r. exact Hbus.
  - intros -> -> -> -> -> Hfont Hlen.
    assert (Hglyphs : Forall (fun c => GlyphIndex c < Z.of_nat (length Font6x8))
                             ([72; 69; 76; 76; 79] ++ replicate 15 32)).
    { repeat (apply Forall_cons; split; [vm_compute GlyphIndex; lia|]).
      apply Forall_nil_2. }
    destruct (BlitCells_total ([72; 69; 76; 76; 79] ++ replicate 15 32) 0 0 lcd)
      as (lcd' & Hall); [exact Hglyphs | lia | lia | |].
    { rewrite Hlen. change FramebufferSize with 1025.
      unfold DrawCharOffset, Width. simpl length.
      destruct DrawChar_bDoubleWidth_default; lia. }
    assert (Hall' := Hall). rewrite BlitCells_app in Hall'.
    apply bind_Some in Hall' as (lcd5 & H5 & Hpad). simpl length in Hpad.
    exists lcd5, lcd'. split; [exact H5|]. split; [exact Hpad|].
    assert (Hprint : Print [72; 69; 76; 76; 79] 0 0 true false lcd = Some lcd').
    { rewrite Heq. unfold Print_spec. cbv zeta.
      apply bind_Some. exists lcd5. split; [exact H5|].
      apply bind_Some. exists lcd'. split; [exact Hpad | reflexivity]. }
    split; [exact Hprint|].
    apply BlitCells_only_Framebuffer in Hall. rewrite Hall. reflexivity.
Qed.

(** ** The control byte is invariant *)

Lemma redrawn_refl fb : redrawn fb fb.
Proof. repeat split; auto. Qed.

Lemma redrawn_trans a b c : redrawn a b → redrawn b c → redrawn a c.
Proof.
  intros (Hl1 & H01 & Hb1) (Hl2 & H02 & Hb2).
  split; [congruence|]. split; [congruence | auto].
Qed.

Lemma array_write_bytes (a a' : list Z) i v :
  array_write a i v = Some a' → is_u8 v → Forall is_u8 a → Forall is_u8 a'.
Proof.
  intros Hw Hv Ha. apply array_write_inv in Hw as [_ ->].
  apply Forall_insert; assumption.
Qed.

Lemma array_read_byte (a : list Z) i v :
  array_read a i = Some v → Forall is_u8 a → is_u8 v.
Proof.
  intros Hr Ha. apply array_read_inv in Hr as [_ Hr].
  rewrite Forall_lookup in Ha. exact (Ha _ _ Hr).
Qed.

(** A write at a positive offset of a value that is a byte (if the array
    holds bytes) draws over the array. *)
Lemma array_write_redrawn (a a' : list Z) i v :
  array_write a i v = Some a' → 0 < i → (Forall is_u8 a → is_u8 v) →
  redrawn a a'.
Proof.
  intros Hw Hi Hv. split; [eapply array_write_length; exact Hw|]. split.
  - eapply array_write_other; [exact Hw | simpl; lia].
  - intros Ha. eapply array_write_bytes; eauto.
Qed.

Lemma for_loopM_redrawn lo hi (body : Z → list Z → option (list Z)) fb fb' :
  (∀ i a a', lo <= i < hi → body i a = Some a' → redrawn a a') →
  for_loopM lo hi body fb = Some fb' →
  redrawn fb fb'.
Proof.
  intros Hbody. apply (for_loopM_preserves (redrawn fb)); [apply redrawn_refl|].
  intros i a a' Hi Ha Hrun. eapply redrawn_trans; [exact Ha|]. eauto.
Qed.

Lemma is_u8_to_u8 z : is_u8 (to_u8 z).
Proof. apply to_u8_range. Qed.

Lemma PixelOffset_positive nX nY :
  0 < PixelOffset (to_u8 (Z.land nX 0x7F)) (to_u8 (Z.land nY 0x3F)).
Proof.
  rewrite mask_x, mask_y.
  apply PixelOffset_range; apply Z.mod_pos_bound; lia.
Qed.

Lemma BarByteOffset_positive nFirstRow totalPages i j k :
  0 <= nFirstRow → 0 <= i → 0 <= j → 0 <= k < totalPages →
  0 < BarByteOffset (nFirstRow * Width) totalPages i j k + 1.
Proof.
  intros. unfold BarByteOffset, Width, BarOffset, BarWidth, BarSpacing. nia.
Qed.

Lemma SetPixel_redrawn nX nY lcd lcd' :
  SetPixel nX nY lcd = Some lcd' →
  redrawn (m_Framebuffer lcd) (m_Framebuffer lcd').
Proof.
  unfold SetPixel. intros H.
  apply bind_Some in H as (v & _ & H).
  apply bind_Some in H as (fb & Hw & [= <-]). simpl.
  eapply array_write_redrawn;
    [exact Hw | apply PixelOffset_positive | intros _; apply is_u8_to_u8].
Qed.

Lemma ClearPixel_redrawn nX nY lcd lcd' :
  ClearPixel nX nY lcd = Some lcd' →
  redrawn (m_Framebuffer lcd) (m_Framebuffer lcd').
Proof.
  unfold ClearPixel. intros H.
  apply bind_Some in H as (v & _ & H).
  apply bind_Some in H as (fb & Hw & [= <-]). simpl.
  eapply array_write_redrawn;
    [exact Hw | apply PixelOffset_positive | intros _; apply is_u8_to_u8].
Qed.

Lemma Clear_redrawn bImmediate lcd lcd' :
  Clear bImmediate lcd = Some lcd' →
  redrawn (m_Framebuffer lcd) (m_Framebuffer lcd').
Proof.
  unfold Clear, memset. intros H.
  apply bind_Some in H as (fb & Hloop & H).
  assert (Hfb : redrawn (m_Framebuffer lcd) fb).
  { eapply for_loopM_redrawn; [|exact Hloop].
    intros k a a' Hk Hw.
    eapply array_write_redrawn; [exact Hw | lia | intros _; unfold is_u8; lia]. }
  destruct bImmediate.
  - apply WriteFramebuffer_inv in H as ->. exact Hfb.
  - injection H as <-. exact Hfb.
Qed.

(** The page values are bytes. *)
Lemma BarPages_bytes totalPages partLevelPixels (pageValues0 pageValues : list Z) :
  BarPages totalPages partLevelPixels pageValues0 = Some pageValues →
  Forall is_u8 pageValues0 → Forall is_u8 pageValues.
Proof.
  unfold BarPages. intros H Hbytes.
  apply bind_Some in H as (pv1 & Hloop1 & H).
  apply bind_Some in H as (pv2 & Hloop2 & H).
  assert (H1 : Forall is_u8 pv1).
  { eapply (for_loopM_preserves (Forall is_u8)); [exact Hbytes | | exact Hloop1].
    intros j a a' _ Ha Hw. eapply array_write_bytes; [exact Hw | | exact Ha].
    unfold is_u8; lia. }
  assert (H2 : Forall is_u8 pv2).
  { eapply (for_loopM_preserves (Forall is_u8)); [exact H1 | | exact Hloop2].
    intros j a a' _ Ha Hw. eapply array_write_bytes; [exact Hw | | exact Ha].
    unfold is_u8; lia. }
  destruct (negb _).
  - eapply array_write_bytes; [exact H | apply is_u8_to_u8 | exact H2].
  - injection H as <-. exact H2.
Qed.

Lemma PeakMeter_bytes bDrawPeaks peakLevelPixels (pageValues pageValues' : list Z) :
  PeakMeter bDrawPeaks peakLevelPixels pageValues = Some pageValues' →
  Forall is_u8 pageValues → Forall is_u8 pageValues'.
Proof.
  unfold PeakMeter. intros H Hbytes.
  destruct (bDrawPeaks && _); [|injection H as <-; exact Hbytes].
  destruct (negb _); apply bind_Some in H as (v & _ & Hw);
    (eapply array_write_bytes; [exact Hw | apply is_u8_to_u8 | exact Hbytes]).
Qed.

Lemma PartPageValues_bytes lcd bDrawPeaks i (pageValues : list Z) :
  PartPageValues lcd bDrawPeaks i = Some pageValues → Forall is_u8 pageValues.
Proof.
  unfold PartPageValues, PageValues. intros H.
  apply bind_Some in H as (part & _ & H).
  apply bind_Some in H as (peak & _ & H).
  apply bind_Some in H as (px & _ & H).
  apply bind_Some in H as (pk & _ & H).
  apply bind_Some in H as (pv & Hbar & Hpeak).
  eapply PeakMeter_bytes; [exact Hpeak|].
  eapply BarPages_bytes; [exact Hbar|].
  apply Forall_replicate. unfold is_u8; lia.
Qed.

Lemma DrawBar_redrawn nFirstRow totalPages i (pageValues fb fb' : list Z) :
  0 <= nFirstRow → 0 <= i → Forall is_u8 pageValues →
  DrawBar (nFirstRow * Width) totalPages i pageValues fb = Some fb' →
  redrawn fb fb'.
Proof.
  intros Hr Hi Hpv. unfold DrawBar. apply for_loopM_redrawn.
  intros j a a' Hj. apply for_loopM_redrawn.
  intros k b b' Hk Hbody.
  apply bind_Some in Hbody as (v & Hv & Hw).
  eapply array_write_redrawn; [exact Hw | apply BarByteOffset_positive; lia |].
  intros _. eapply array_read_byte; eauto.
Qed.

Lemma DrawPartLevels_redrawn nFirstRow bDrawPeaks lcd lcd' :
  0 <= nFirstRow →
  DrawPartLevels nFirstRow bDrawPeaks lcd = Some lcd' →
  lcd' = set_Framebuffer lcd (m_Framebuffer lcd') ∧
  redrawn (m_Framebuffer lcd) (m_Framebuffer lcd').
Proof.
  intros Hr. unfold DrawPartLevels. intros H.
  apply bind_Some in H as (fb' & Hloop & [= <-]).
  split; [reflexivity|]. simpl.
  eapply for_loopM_redrawn; [|exact Hloop].
  intros i a a' Hi Hbody.
  apply bind_Some in Hbody as (pv & Hpv & Hbar).
  apply (DrawBar_redrawn nFirstRow (TotalPages (m_nHeight lcd)) i pv a a' Hr);
    [lia | | exact Hbar].
  eapply PartPageValues_bytes. exact Hpv.
Qed.

Lemma DrawChar_redrawn chChar nCursorX nCursorY bInverted bDoubleWidth lcd lcd' :
  0 <= nCursorX → 0 <= nCursorY →
  DrawChar chChar nCursorX nCursorY bInverted bDoubleWidth lcd = Some lcd' →
  redrawn (m_Framebuffer lcd) (m_Framebuffer lcd').
Proof.
  intros Hx Hy. unfold DrawChar. intros H.
  apply bind_Some in H as (fb' & Hloop & [= <-]). simpl.
  eapply for_loopM_redrawn; [|exact Hloop].
  intros i a a' Hi Hbody.
  pose proof (DrawCharOffset_positive nCursorX nCursorY bDoubleWidth i Hx Hy
                ltac:(lia)) as Hpos.
  apply bind_Some in Hbody as (fc & _ & Hbody). cbv zeta in Hbody.
  apply bind_Some in Hbody as (fbA & HwA & Hbody).
  apply bind_Some in Hbody as (fbB & HwB & Hbody).
  apply array_write_redrawn in HwA; [|lia | intros _; apply is_u8_to_u8].
  apply array_write_redrawn in HwB;
    [|unfold Width; lia | intros _; apply is_u8_to_u8].
  destruct bDoubleWidth.
  - apply bind_Some in Hbody as (v1 & Hv1 & Hbody).
    apply bind_Some in Hbody as (fbC & HwC & Hbody).
    apply bind_Some in Hbody as (v2 & Hv2 & HwD).
    apply array_write_redrawn in HwC;
      [|lia | intros Hb; eapply array_read_byte; eauto].
    apply array_write_redrawn in HwD;
      [|unfold Width; lia | intros Hb; eapply array_read_byte; eauto].
    eauto using redrawn_trans.
  - injection Hbody as <-. eauto using redrawn_trans.
Qed.

Lemma Print_chars_redrawn pText nCursorX nCursorY lcd x' lcd' :
  0 <= nCursorX → 0 <= nCursorY →
  Print_chars pText nCursorX nCursorY lcd = Some (x', lcd') →
  0 <= x' ∧ redrawn (m_Framebuffer lcd) (m_Framebuffer lcd').
Proof.
  revert nCursorX lcd.
  induction pText as [|c pText IH]; intros x lcd Hx Hy; simpl.
  - intros [= <- <-]. split; [exact Hx | apply redrawn_refl].
  - destruct (negb (c =? 0) && (x <? 20)).
    + intros H. apply bind_Some in H as (lcd1 & Hdraw & Hrest).
      apply DrawChar_redrawn in Hdraw; [|lia..].
      apply IH in Hrest as (Hx' & Hrest); [|apply to_u8_range | lia].
      split; [exact Hx' | eauto using redrawn_trans].
    + intros [= <- <-]. split; [exact Hx | apply redrawn_refl].
Qed.

Lemma Print_redrawn pText nCursorX nCursorY bClearLine bImmediate lcd lcd' :
  0 <= nCursorX → 0 <= nCursorY →
  Print pText nCursorX nCursorY bClearLine bImmediate lcd = Some lcd' →
  redrawn (m_Framebuffer lcd) (m_Framebuffer lcd').
Proof.
  intros Hx Hy. unfold Print. intros H.
  apply bind_Some in H as ([x1 lcd1] & Hchars & H).
  apply Print_chars_redrawn in Hchars as (Hx1 & Hfb1); [|lia..].
  apply bind_Some in H as (lcd2 & Hpad & H).
  assert (Hfb2 : redrawn (m_Framebuffer lcd1) (m_Framebuffer lcd2)).
  { destruct bClearLine; [|injection Hpad as <-; apply redrawn_refl].
    eapply (for_loopM_preserves
              (fun l : CSSD1306 => redrawn (m_Framebuffer lcd1) (m_Framebuffer l)));
      [apply redrawn_refl | | exact Hpad].
    intros x l l' Hxr Hl Hdraw.
    apply DrawChar_redrawn in Hdraw; [|lia..].
    eauto using redrawn_trans. }
  destruct bImmediate.
  - apply WriteFramebuffer_inv in H as ->. simpl. eauto using redrawn_trans.
  - injection H as <-. eauto using redrawn_trans.
Qed.

Lemma Initialize_Framebuffer lcd :
  m_Framebuffer (snd (Initialize lcd)) = m_Framebuffer lcd.
Proof.
  unfold Initialize. destruct (negb _); [reflexivity|]. cbn [snd].
  generalize (initSequence (m_nHeight lcd) (m_Rotation lcd)) as bytes.
  intros bytes. revert lcd.
  induction bytes as [|b bytes IH]; intros lcd; [reflexivity|].
  cbn [foldl]. rewrite IH. reflexivity.
Qed.

Lemma Update_redrawn Synth lcd lcd' :
  Update Synth lcd = Some lcd' →
  redrawn (m_Framebuffer lcd) (m_Framebuffer lcd').
Proof.
  unfold Update. cbv zeta. intros H.
  apply bind_Some in H as (lcd1 & Hbars & H).
  apply bind_Some in H as (lcd2 & Hprint & H).
  apply DrawPartLevels_redrawn in Hbars as [_ Hbars]; [|lia].
  apply Print_redrawn in Hprint; [|lia | destruct (_ =? 32); lia].
  apply WriteFramebuffer_inv in H as ->.
  simpl in *. eauto using redrawn_trans.
Qed.

(** Every operation draws over the framebuffer. *)
Lemma run_redrawn o lcd lcd' :
  well_typed o → run o lcd = Some lcd' →
  redrawn (m_Framebuffer lcd) (m_Framebuffer lcd').
Proof.
  destruct o; simpl; unfold is_u8; intros Hwt Hrun.
  - injection Hrun as <-. rewrite Initialize_Framebuffer. apply redrawn_refl.
  - apply WriteFramebuffer_inv in Hrun as ->. apply redrawn_refl.
  - eapply SetPixel_redrawn; exact Hrun.
  - eapply ClearPixel_redrawn; exact Hrun.
  - eapply DrawChar_redrawn; [| | exact Hrun]; lia.
  - eapply DrawPartLevels_redrawn; [|exact Hrun]; lia.
  - eapply Print_redrawn; [| | exact Hrun]; lia.
  - eapply Clear_redrawn; exact Hrun.
  - eapply Update_redrawn; exact Hrun.
Qed.

(** In every reachable state the framebuffer has its declared size and
    holds bytes, the first of which is the control marker. *)
Lemma reachable_Framebuffer lcd :
  reachable lcd →
  m_Framebuffer lcd !! 0%nat = Some 0x40 ∧
  Z.of_nat (length (m_Framebuffer lcd)) = FramebufferSize ∧
  Forall is_u8 (m_Framebuffer lcd).
Proof.
  induction 1 as [b a h r | o lcd lcd' Hreach (IH0 & IHlen & IHbytes) Hwt Hrun].
  - split; [reflexivity|]. split; [reflexivity|].
    unfold CSSD1306_new. cbn [m_Framebuffer].
    apply Forall_cons. split; [unfold is_u8; lia|].
    apply Forall_replicate. unfold is_u8; lia.
  - destruct (run_redrawn o lcd lcd' Hwt Hrun) as (Hl & H0 & Hb).
    split; [congruence|]. split; [lia | auto].
Qed.

(** C10. Byte 0 of the framebuffer is the control marker 0x40 after
    construction and in every state reached from there through the
    operations of the driver: each of them (SetPixel, ClearPixel, Clear,
    DrawChar, DrawPartLevels, Print, Update, and the two that only talk
    to the bus) preserves byte 0, for every framebuffer offset it
    computes for a write is strictly greater than 0. *)
Theorem control_byte_invariant :
  (∀ b nAddress nHeight Rotation,
     m_Framebuffer (CSSD1306_new b nAddress nHeight Rotation) !! 0%nat
     = Some 0x40) ∧
  (∀ lcd, reachable lcd → m_Framebuffer lcd !! 0%nat = Some 0x40) ∧
  (∀ o lcd lcd',
     well_typed o → run o lcd = Some lcd' →
     m_Framebuffer lcd' !! 0%nat = m_Framebuffer lcd !! 0%nat) ∧
  (∀ nX nY, 0 < PixelOffset (to_u8 (Z.land nX 0x7F)) (to_u8 (Z.land nY 0x3F))) ∧
  (∀ nCursorX nCursorY bDoubleWidth i,
     is_u8 nCursorX → is_u8 nCursorY → 0 <= i < 6 →
     0 < DrawCharOffset nCursorX nCursorY bDoubleWidth i) ∧
  (∀ nFirstRow nHeight i j k,
     is_u8 nFirstRow → 0 <= i < 9 → 0 <= j < BarWidth →
     0 <= k < TotalPages nHeight →
     0 < BarByteOffset (nFirstRow * Width) (TotalPages nHeight) i j k + 1).
Proof.
  split; [reflexivity|]. split; [|split; [|split; [|split]]].
  - intros lcd Hreach. apply reachable_Framebuffer. exact Hreach.
  - intros o lcd lcd' Hwt Hrun. apply (run_redrawn o lcd lcd' Hwt Hrun).
  - apply PixelOffset_positive.
  - unfold is_u8. intros. apply DrawCharOffset_positive; lia.
  - unfold is_u8. intros. apply BarByteOffset_positive; lia.
Qed.

(** ** The font tables, bit by bit *)

Lemma land_1_b2z x : Z.land x 1 = Z.b2z (Z.testbit x 0).
Proof.
  change 1 with (Z.ones 1). rewrite Z.land_ones by lia.
  change (2 ^ 1) with 2. symmetry. apply Z.bit0_mod.
Qed.

Lemma to_u8_testbit z n :
  0 <= n → Z.testbit (to_u8 z) n = Z.testbit z n && (n <? 8).
Proof.
  intros Hn. unfold to_u8. change 0xFF with (Z.ones 8).
  rewrite Z.land_spec, Z.testbit_ones by lia.
  replace (0 <=? n) with true by (symmetry; apply Z.leb_le; lia).
  reflexivity.
Qed.

(** Bit [n] of a single-height column is bit [5 - nColumn] of row [n]. *)
Lemma SingleColumn_bits charData nColumn n :
  0 <= nColumn < 6 → 0 <= n →
  Z.testbit (SingleColumn charData nColumn) n
  = (n <? 8) && Z.testbit (charData !!! Z.to_nat n) (5 - nColumn).
Proof.
  intros Hc Hn. unfold SingleColumn.
  rewrite (to_u8_small (5 - nColumn)) by lia.
  revert n Hn.
  apply (for_loop_inv
           (fun k column =>
              ∀ n, 0 <= n →
                   Z.testbit column n
                   = (n <? k) && Z.testbit (charData !!! Z.to_nat n) (5 - nColumn)));
    [lia | |].
  - intros n Hn. rewrite Z.testbit_0_l.
    replace (n <? 0) with false by (symmetry; apply Z.ltb_ge; lia).
    reflexivity.
  - intros k column Hk IH n Hn.
    rewrite to_u8_testbit, Z.lor_spec, IH by lia.
    rewrite land_1_b2z, b2z_shiftl_testbit, Z.shiftr_spec by lia.
    rewrite Z.add_0_l.
    destruct (Z.ltb_spec n k), (Z.ltb_spec n (k + 1)), (Z.ltb_spec n 8),
      (Z.eqb_spec n k); try lia; subst; simpl;
      rewrite ?andb_true_r, ?andb_false_r, ?orb_false_r; reflexivity.
Qed.

(** X1. The font tables are the transposed glyphs: for glyph [g] and
    column [c], bit [i] of the single-height entry is bit [5 - c] of glyph
    row [i], and bit [n] of the double-height entry is bit [5 - c] of
    glyph row [n / 2]. *)
Theorem Font_tables_transpose (g c : Z) :
  0 <= g < Z.of_nat (length Font6x8) →
  0 <= c < 6 →
  ∃ glyph single double,
    Font6x8 !! Z.to_nat g = Some glyph ∧
    Font_at FontSingle g c = Some single ∧
    Font_at FontDouble g c = Some double ∧
    (∀ i, 0 <= i < 8 →
          Z.testbit single i = Z.testbit (glyph !!! Z.to_nat i) (5 - c)) ∧
    (∀ n, 0 <= n < 16 →
          Z.testbit double n = Z.testbit (glyph !!! Z.to_nat (n / 2)) (5 - c)) ∧
    (∀ n, 8 <= n → Z.testbit single n = false) ∧
    (∀ n, 16 <= n → Z.testbit double n = false).
Proof.
  intros Hg Hc.
  destruct (lookup_lt_is_Some_2 Font6x8 (Z.to_nat g)) as [glyph Hglyph]; [lia|].
  exists glyph, (SingleColumn glyph c), (DoubleColumn glyph c).
  unfold FontSingle, FontDouble.
  rewrite !(Font_at_Font _ _ _ _ glyph) by (assumption || lia).
  split; [exact Hglyph|]. split; [reflexivity|]. split; [reflexivity|].
  split; [|split; [|split]].
  - intros i Hi. rewrite SingleColumn_bits by lia.
    replace (i <? 8) with true by (symmetry; apply Z.ltb_lt; lia). reflexivity.
  - intros n Hn. rewrite DoubleColumn_bits by lia.
    assert (0 <= n / 2 < 8) by (Z.div_mod_to_equations; lia).
    rewrite SingleColumn_bits by lia.
    replace (n <? 16) with true by (symmetry; apply Z.ltb_lt; lia).
    replace (n / 2 <? 8) with true by (symmetry; apply Z.ltb_lt; lia).
    reflexivity.
  - intros n Hn. rewrite SingleColumn_bits by lia.
    replace (n <? 8) with false by (symmetry; apply Z.ltb_ge; lia). reflexivity.
  - intros n Hn. rewrite DoubleColumn_bits by lia.
    replace (n <? 16) with false by (symmetry; apply Z.ltb_ge; lia). reflexivity.
Qed.

(** ** Level meters, pixel by pixel *)

(** Without a peak marker, exactly the lowest [partLevelPixels] pixels of
    the bar are lit. *)
Lemma BarPages_pixel totalPages partLevelPixels (pageValues0 pageValues : list Z) :
  0 <= partLevelPixels < 256 →
  Z.of_nat (length pageValues0) = totalPages →
  partLevelPixels / 8 <= totalPages →
  (0 < partLevelPixels mod 8 → partLevelPixels / 8 < totalPages) →
  BarPages totalPages partLevelPixels pageValues0 = Some pageValues →
  ∀ h, 0 <= h < 8 * totalPages →
       BarPixel pageValues h = (h <? partLevelPixels).
Proof.
  intros Hpx Hlen Hfull Hrem Hrun h Hh.
  destruct (BarPages_spec totalPages partLevelPixels pageValues0)
    as (pv & Hrun' & _ & Hones & Hrest); try assumption.
  assert (pv = pageValues) as -> by congruence.
  unfold BarPixel.
  assert (Hk : 0 <= h / 8 < totalPages ∧ 0 <= 7 - h mod 8 < 8)
    by (Z.div_mod_to_equations; lia).
  destruct (Z_lt_le_dec (h / 8) (partLevelPixels / 8)) as [Hlt|Hge].
  - rewrite Hones by lia. change 0xFF with (Z.ones 8).
    rewrite Z.testbit_ones by lia.
    replace (0 <=? 7 - h mod 8) with true by (symmetry; apply Z.leb_le; lia).
    replace (7 - h mod 8 <? 8) with true by (symmetry; apply Z.ltb_lt; lia).
    symmetry. apply Z.ltb_lt. Z.div_mod_to_equations; lia.
  - rewrite Hrest by lia.
    destruct (Z.ltb_spec 0 (partLevelPixels mod 8)) as [Hr|Hr],
      (Z.eqb_spec (h / 8) (partLevelPixels / 8)) as [He|He]; simpl.
    + rewrite partial_mask_bits by (Z.div_mod_to_equations; lia).
      replace (7 - h mod 8 <? 8) with true by (symmetry; apply Z.ltb_lt; lia).
      rewrite andb_true_r.
      destruct (Z.leb_spec (8 - partLevelPixels mod 8) (7 - h mod 8)),
        (Z.ltb_spec h partLevelPixels); try reflexivity;
        Z.div_mod_to_equations; lia.
    + rewrite Z.testbit_0_l. symmetry. apply Z.ltb_ge.
      Z.div_mod_to_equations; lia.
    + rewrite Z.testbit_0_l. symmetry. apply Z.ltb_ge.
      Z.div_mod_to_equations; lia.
    + rewrite Z.testbit_0_l. symmetry. apply Z.ltb_ge.
      Z.div_mod_to_equations; lia.
Qed.

(** The peak marker lights the pixel at height [peakLevelPixels - 1], and
    no other. *)
Lemma PeakMeter_pixel totalPages peakLevelPixels (pageValues pageValues' : list Z) :
  0 < peakLevelPixels <= 8 * totalPages → totalPages <= 31 →
  Z.of_nat (length pageValues) = totalPages →
  PeakMeter true peakLevelPixels pageValues = Some pageValues' →
  ∀ h, 0 <= h < 8 * totalPages →
       BarPixel pageValues' h
       = BarPixel pageValues h || (h =? peakLevelPixels - 1).
Proof.
  intros Hp Ht Hlen Hrun h Hh.
  rewrite PeakMeter_unfold in Hrun by lia.
  assert (Hidx : PeakIndex peakLevelPixels = (peakLevelPixels - 1) / 8).
  { unfold PeakIndex.
    rewrite !to_u8_small by (Z.div_mod_to_equations; lia).
    destruct (Z.eqb_spec (peakLevelPixels mod 8) 0); simpl;
      Z.div_mod_to_equations; lia. }
  assert (Hin : 0 <= PeakIndex peakLevelPixels < Z.of_nat (length pageValues))
    by (rewrite Hidx; Z.div_mod_to_equations; lia).
  destruct (array_read_Some pageValues _ Hin) as (old & Hold & Hread).
  rewrite Hread in Hrun. simpl in Hrun.
  rewrite array_write_Some in Hrun by assumption. injection Hrun as <-.
  assert (Hb : 0 <= 7 - h mod 8 < 8) by (Z.div_mod_to_equations; lia).
  unfold BarPixel.
  destruct (Z.eq_dec (h / 8) (PeakIndex peakLevelPixels)) as [Heq|Hne].
  - rewrite Heq, list_lookup_insert_eq, Hold by lia.
    rewrite to_u8_testbit, Z.lor_spec by lia.
    replace (7 - h mod 8 <? 8) with true by (symmetry; apply Z.ltb_lt; lia).
    rewrite andb_true_r. f_equal.
    destruct (Z.eqb_spec (peakLevelPixels mod 8) 0) as [Hz|Hnz].
    + pose proof (shiftl_1_testbit 0 (7 - h mod 8) ltac:(lia) ltac:(lia)) as Hone.
      change (Z.shiftl 1 0) with 1 in Hone. rewrite Hone.
      destruct (Z.eqb_spec (7 - h mod 8) 0), (Z.eqb_spec h (peakLevelPixels - 1));
        try reflexivity; Z.div_mod_to_equations; lia.
    + rewrite shiftl_1_testbit by (Z.div_mod_to_equations; lia).
      destruct (Z.eqb_spec (7 - h mod 8) (8 - peakLevelPixels mod 8)),
        (Z.eqb_spec h (peakLevelPixels - 1));
        try reflexivity; Z.div_mod_to_equations; lia.
  - rewrite list_lookup_insert_ne by (Z.div_mod_to_equations; lia).
    replace (h =? peakLevelPixels - 1) with false; [rewrite orb_false_r; reflexivity|].
    symmetry. apply Z.eqb_neq. intros ->. apply Hne. symmetry. exact Hidx.
Qed.

Lemma PageValues_pixel_spec (nHeight : Z) (bDrawPeaks : bool) (partLevel peakLevel : Q) :
  nHeight = 32 ∨ nHeight = 64 →
  unit_level partLevel → unit_level peakLevel →
  ∃ partLevelPixels peakLevelPixels pageValues,
    LevelPixels partLevel (BarHeight nHeight) = Some partLevelPixels ∧
    LevelPixels peakLevel (BarHeight nHeight) = Some peakLevelPixels ∧
    PageValues (TotalPages nHeight) (BarHeight nHeight) bDrawPeaks
               partLevel peakLevel = Some pageValues ∧
    Z.of_nat (length pageValues) = TotalPages nHeight ∧
    ∀ h, 0 <= h < BarHeight nHeight →
         BarPixel pageValues h
         = (h <? partLevelPixels)
           || (bDrawPeaks && (0 <? peakLevelPixels) && (h =? peakLevelPixels - 1)).
Proof.
  intros Hh [Hp0 Hp1] [Hk0 Hk1].
  assert (Hgeo : 0 <= BarHeight nHeight <= 255 ∧
                 BarHeight nHeight = 8 * TotalPages nHeight ∧
                 0 <= TotalPages nHeight <= 31)
    by (destruct Hh as [-> | ->]; vm_compute; intuition discriminate).
  destruct Hgeo as (Hbh & Hbt & Ht).
  destruct (LevelPixels_range partLevel (BarHeight nHeight))
    as (px & Hpx & Hpxr); try assumption.
  destruct (LevelPixels_range peakLevel (BarHeight nHeight))
    as (pk & Hpk & Hpkr); try assumption.
  destruct (pages_in_range _ px Hh Hpxr) as (Hu8 & Hfull & Hrem).
  set (pv0 := replicate (Z.to_nat (TotalPages nHeight)) 0).
  assert (Hlen0 : Z.of_nat (length pv0) = TotalPages nHeight)
    by (subst pv0; rewrite length_replicate; lia).
  destruct (BarPages_spec (TotalPages nHeight) px pv0)
    as (pv1 & Hbar & Hlen1 & _); try assumption; try lia.
  destruct (PeakMeter_total nHeight bDrawPeaks pk pv1)
    as (pv2 & Hpeak & Hlen2); try assumption; try lia.
  exists px, pk, pv2. split; [exact Hpx|]. split; [exact Hpk|].
  split; [|split; [lia|]].
  { unfold PageValues. rewrite Hpx, Hpk. simpl. fold pv0. rewrite Hbar. exact Hpeak. }
  intros h Hhr.
  assert (Hbarpix := BarPages_pixel _ _ _ _ Hu8 Hlen0 ltac:(lia) Hrem Hbar h ltac:(lia)).
  destruct bDrawPeaks, (Z.ltb_spec 0 pk) as [Hpos|Hzero]; simpl.
  - rewrite (PeakMeter_pixel (TotalPages nHeight) pk pv1 pv2) by (assumption || lia).
    rewrite Hbarpix. reflexivity.
  - rewrite PeakMeter_not_drawn in Hpeak by (right; lia). injection Hpeak as <-.
    rewrite Hbarpix, orb_false_r. reflexivity.
  - rewrite PeakMeter_not_drawn in Hpeak by auto. injection Hpeak as <-.
    rewrite Hbarpix, orb_false_r. reflexivity.
  - rewrite PeakMeter_not_drawn in Hpeak by auto. injection Hpeak as <-.
    rewrite Hbarpix, orb_false_r. reflexivity.
Qed.

(** X2. The page values of a part, read as pixels: with part and peak
    levels in [0, 1] on a display of height 32 or 64, the pixel of the bar
    at height [h] above its bottom row is lit exactly when [h] is below
    the part level in pixels, or peaks are drawn, the peak level is not
    zero, and [h] is its topmost pixel, peakLevelPixels - 1. *)
Theorem PageValues_pixels (nHeight : Z) (bDrawPeaks : bool) (partLevel peakLevel : Q) :
  nHeight = 32 ∨ nHeight = 64 →
  unit_level partLevel → unit_level peakLevel →
  ∃ partLevelPixels peakLevelPixels pageValues,
    LevelPixels partLevel (BarHeight nHeight) = Some partLevelPixels ∧
    LevelPixels peakLevel (BarHeight nHeight) = Some peakLevelPixels ∧
    PageValues (TotalPages nHeight) (BarHeight nHeight) bDrawPeaks
               partLevel peakLevel = Some pageValues ∧
    Z.of_nat (length pageValues) = TotalPages nHeight ∧
    ∀ h, 0 <= h < BarHeight nHeight →
         BarPixel pageValues h
         = (h <? partLevelPixels)
           || (bDrawPeaks && (0 <? peakLevelPixels) && (h =? peakLevelPixels - 1)).
Proof. apply PageValues_pixel_spec. Qed.

(** A loop of writes at its own counter needs an array that long. *)
Lemma fill_loop_bound lo hi v (a a' : list Z) :
  lo <= hi → 0 <= lo →
  for_loopM lo hi (fun j a => array_write a j v) a = Some a' →
  (lo < hi → hi <= Z.of_nat (length a)) ∧ length a' = length a.
Proof.
  intros Hle Hlo Hrun.
  apply (for_loopM_post
           (fun j (b : list Z) =>
              (lo < j → j <= Z.of_nat (length a)) ∧ length b = length a)
           lo hi (fun j a => array_write a j v) a a' Hle);
    [split; [lia | reflexivity] | | exact Hrun].
  intros j b b' Hj [_ Hl] Hw.
  apply array_write_inv in Hw as [Hb ->].
  rewrite length_insert. split; [lia | exact Hl].
Qed.

(** X3. The page array is exactly as long as a full bar needs: on a
    display of height 32 or 64, [BarPages] stays inside [pageValues] if
    and only if the level in pixels does not exceed the bar height; any
    larger pixel count (a level above 1) writes past the end. *)
Theorem BarPages_in_bounds_iff (nHeight partLevelPixels : Z) (pageValues0 : list Z) :
  nHeight = 32 ∨ nHeight = 64 →
  0 <= partLevelPixels < 256 →
  Z.of_nat (length pageValues0) = TotalPages nHeight →
  is_Some (BarPages (TotalPages nHeight) partLevelPixels pageValues0)
  ↔ partLevelPixels <= BarHeight nHeight.
Proof.
  intros Hh Hpx Hlen.
  assert (Hgeo : BarHeight nHeight = 8 * TotalPages nHeight ∧
                 0 <= TotalPages nHeight <= 31)
    by (destruct Hh as [-> | ->]; vm_compute; intuition discriminate).
  destruct Hgeo as (Hbt & Ht).
  split.
  - intros [pv Hrun]. unfold BarPages in Hrun.
    rewrite !to_u8_small in Hrun by (Z.div_mod_to_equations; lia).
    apply bind_Some in Hrun as (pv1 & Hloop1 & Hrun).
    apply bind_Some in Hrun as (pv2 & Hloop2 & Hrun).
    apply fill_loop_bound in Hloop1 as [Hb1 Hl1];
      [|Z.div_mod_to_equations; lia | lia].
    destruct (Z_le_gt_dec (partLevelPixels / 8) (TotalPages nHeight)) as [Hle|Hgt];
      [|Z.div_mod_to_equations; lia].
    apply fill_loop_bound in Hloop2 as [_ Hl2];
      [|lia | Z.div_mod_to_equations; lia].
    destruct (Z.eqb_spec (partLevelPixels mod 8) 0) as [Hz|Hnz]; simpl in Hrun.
    + Z.div_mod_to_equations; lia.
    + apply array_write_inv in Hrun as [Hb _].
      Z.div_mod_to_equations; lia.
  - intros Hle.
    destruct (pages_in_range nHeight partLevelPixels Hh ltac:(lia))
      as (_ & Hfull & Hrem).
    destruct (BarPages_spec (TotalPages nHeight) partLevelPixels pageValues0)
      as (pv & -> & _); try assumption; [lia | eauto].
Qed.

(** ** Pixels of the framebuffer *)

Lemma PageByte_inj page column page' column' :
  0 <= column < Width → 0 <= column' < Width →
  PageByte page column = PageByte page' column' →
  page = page' ∧ column = column'.
Proof. unfold PageByte, Width. lia. Qed.

Lemma land_7_mod y : Z.land y 7 = y mod 8.
Proof. change 7 with (Z.ones 3). rewrite Z.land_ones by lia. reflexivity. Qed.

(** The pixels after one byte of the framebuffer is replaced. *)
Lemma Pixel_insert (fb : list Z) page column v x y :
  0 <= page → 0 <= column < Width → 0 <= x < Width → 0 <= y →
  PageByte page column < Z.of_nat (length fb) →
  Pixel (<[Z.to_nat (PageByte page column) := v]> fb) x y
  = if (x =? column) && (y / 8 =? page) then Z.testbit v (y mod 8)
    else Pixel fb x y.
Proof.
  intros Hp Hc Hx Hy Hlen. unfold Pixel.
  assert (0 <= y / 8) by (Z.div_mod_to_equations; lia).
  destruct (Z.eqb_spec x column) as [->|Hne];
    [destruct (Z.eqb_spec (y / 8) page) as [->|Hne]|]; simpl.
  - rewrite list_lookup_insert_eq by (unfold PageByte, Width in *; lia).
    reflexivity.
  - rewrite list_lookup_insert_ne; [reflexivity|].
    intros Heq. apply Z2Nat.inj in Heq; [|unfold PageByte, Width in *; nia..].
    apply PageByte_inj in Heq; [lia | lia..].
  - rewrite list_lookup_insert_ne; [reflexivity|].
    intros Heq. apply Z2Nat.inj in Heq; [|unfold PageByte, Width in *; nia..].
    apply PageByte_inj in Heq; [lia | lia..].
Qed.

Lemma SetPixel_pixel_spec nX nY lcd :
  Z.of_nat (length (m_Framebuffer lcd)) = FramebufferSize →
  ∃ fb',
    SetPixel nX nY lcd = Some (set_Framebuffer lcd fb') ∧
    length fb' = length (m_Framebuffer lcd) ∧
    ∀ x y, 0 <= x < 128 → 0 <= y < 64 →
           Pixel fb' x y
           = (x =? nX mod 128) && (y =? nY mod 64) || Pixel (m_Framebuffer lcd) x y.
Proof.
  intros Hlen.
  destruct (SetPixel_eq nX nY lcd Hlen) as (old & Hold & Hset).
  assert (HX : 0 <= nX mod 128 < 128) by (apply Z.mod_pos_bound; lia).
  assert (HY : 0 <= nY mod 64 < 64) by (apply Z.mod_pos_bound; lia).
  rewrite PixelOffset_page in Hold, Hset by (unfold is_u8; lia).
  change (1 + nY mod 64 / 8 * Width + nX mod 128)
    with (PageByte (nY mod 64 / 8) (nX mod 128)) in Hold, Hset.
  eexists. split; [exact Hset|]. split; [apply length_insert|].
  intros x y Hx Hy.
  rewrite Pixel_insert;
    [|unfold PageByte, Width in *; change FramebufferSize with 1025 in *;
      try (Z.div_mod_to_equations; lia)..].
  destruct (Z.eqb_spec x (nX mod 128)) as [->|Hne]; simpl; [|reflexivity].
  destruct (Z.eqb_spec (y / 8) (nY mod 64 / 8)) as [Hp|Hp].
  - rewrite to_u8_testbit, Z.lor_spec, shiftl_1_testbit, land_7_mod
      by (rewrite ?land_7_mod; Z.div_mod_to_equations; lia).
    replace (y mod 8 <? 8) with true
      by (symmetry; apply Z.ltb_lt; Z.div_mod_to_equations; lia).
    rewrite andb_true_r, orb_comm.
    unfold Pixel. rewrite Hp, Hold.
    f_equal.
    destruct (Z.eqb_spec (y mod 8) (nY mod 64 mod 8)),
      (Z.eqb_spec y (nY mod 64)); try reflexivity;
      Z.div_mod_to_equations; lia.
  - destruct (Z.eqb_spec y (nY mod 64)) as [->|_]; [congruence | reflexivity].
Qed.

Lemma ClearPixel_pixel_spec nX nY lcd :
  Z.of_nat (length (m_Framebuffer lcd)) = FramebufferSize →
  ∃ fb',
    ClearPixel nX nY lcd = Some (set_Framebuffer lcd fb') ∧
    length fb' = length (m_Framebuffer lcd) ∧
    ∀ x y, 0 <= x < 128 → 0 <= y < 64 →
           Pixel fb' x y
           = negb ((x =? nX mod 128) && (y =? nY mod 64))
             && Pixel (m_Framebuffer lcd) x y.
Proof.
  intros Hlen.
  destruct (ClearPixel_eq nX nY lcd Hlen) as (old & Hold & Hclr).
  assert (HX : 0 <= nX mod 128 < 128) by (apply Z.mod_pos_bound; lia).
  assert (HY : 0 <= nY mod 64 < 64) by (apply Z.mod_pos_bound; lia).
  rewrite PixelOffset_page in Hold, Hclr by (unfold is_u8; lia).
  change (1 + nY mod 64 / 8 * Width + nX mod 128)
    with (PageByte (nY mod 64 / 8) (nX mod 128)) in Hold, Hclr.
  eexists. split; [exact Hclr|]. split; [apply length_insert|].
  intros x y Hx Hy.
  rewrite Pixel_insert;
    [|unfold PageByte, Width in *; change FramebufferSize with 1025 in *;
      try (Z.div_mod_to_equations; lia)..].
  destruct (Z.eqb_spec x (nX mod 128)) as [->|Hne]; simpl; [|reflexivity].
  destruct (Z.eqb_spec (y / 8) (nY mod 64 / 8)) as [Hp|Hp].
  - rewrite to_u8_testbit, Z.land_spec, Z.lnot_spec, shiftl_1_testbit, land_7_mod
      by (rewrite ?land_7_mod; Z.div_mod_to_equations; lia).
    replace (y mod 8 <? 8) with true
      by (symmetry; apply Z.ltb_lt; Z.div_mod_to_equations; lia).
    rewrite andb_true_r, andb_comm.
    unfold Pixel. rewrite Hp, Hold.
    f_equal. f_equal.
    destruct (Z.eqb_spec (y mod 8) (nY mod 64 mod 8)),
      (Z.eqb_spec y (nY mod 64)); try reflexivity;
      Z.div_mod_to_equations; lia.
  - destruct (Z.eqb_spec y (nY mod 64)) as [->|_]; [congruence | reflexivity].
Qed.

(** X4. In pixels: [SetPixel(nX, nY)] lights the pixel
    (nX mod 128, nY mod 64) and [ClearPixel(nX, nY)] puts it out; every
    other pixel of the 128 x 64 area keeps its state. *)
Theorem SetPixel_ClearPixel_pixels (nX nY : Z) (lcd : CSSD1306) :
  Z.of_nat (length (m_Framebuffer lcd)) = FramebufferSize →
  ∃ lcdSet lcdClear,
    SetPixel nX nY lcd = Some lcdSet ∧
    ClearPixel nX nY lcd = Some lcdClear ∧
    ∀ x y, 0 <= x < 128 → 0 <= y < 64 →
           Pixel (m_Framebuffer lcdSet) x y
           = (x =? nX mod 128) && (y =? nY mod 64)
             || Pixel (m_Framebuffer lcd) x y ∧
           Pixel (m_Framebuffer lcdClear) x y
           = negb ((x =? nX mod 128) && (y =? nY mod 64))
             && Pixel (m_Framebuffer lcd) x y.
Proof.
  intros Hlen.
  destruct (SetPixel_pixel_spec nX nY lcd Hlen) as (fb1 & Hset & _ & Hpix1).
  destruct (ClearPixel_pixel_spec nX nY lcd Hlen) as (fb2 & Hclr & _ & Hpix2).
  eexists. eexists. split; [exact Hset|]. split; [exact Hclr|].
  intros x y Hx Hy. simpl. split; [apply Hpix1 | apply Hpix2]; assumption.
Qed.

(** Two in-place updates of single elements can be swapped when the
    update functions commute on a common element. *)
Lemma insert_update_commute (f g : Z → Z) (a : list Z) (o1 o2 : nat) v1 v2 :
  a !! o1 = Some v1 → a !! o2 = Some v2 →
  (o1 = o2 → f (g v1) = g (f v1)) →
  ∃ w1 w2,
    <[o1 := f v1]> a !! o2 = Some w1 ∧
    <[o2 := g v2]> a !! o1 = Some w2 ∧
    <[o2 := g w1]> (<[o1 := f v1]> a) = <[o1 := f w2]> (<[o2 := g v2]> a).
Proof.
  intros H1 H2 Hfg.
  pose proof (lookup_lt_Some _ _ _ H1) as Hl1.
  pose proof (lookup_lt_Some _ _ _ H2) as Hl2.
  destruct (decide (o1 = o2)) as [<-|Hne].
  - assert (v2 = v1) as -> by congruence.
    exists (f v1), (g v1).
    rewrite !list_lookup_insert_eq by lia.
    split; [reflexivity|]. split; [reflexivity|].
    rewrite !list_insert_insert_eq. f_equal. symmetry. apply Hfg. reflexivity.
  - exists v2, v1.
    rewrite !list_lookup_insert_ne by congruence.
    split; [exact H2|]. split; [exact H1|].
    apply list_insert_insert_ne. congruence.
Qed.

Lemma set_bits_commute v m1 m2 :
  to_u8 (Z.lor (to_u8 (Z.lor v m1)) m2) = to_u8 (Z.lor (to_u8 (Z.lor v m2)) m1).
Proof.
  apply Z.bits_inj'. intros n Hn.
  rewrite !to_u8_testbit, !Z.lor_spec, !to_u8_testbit, !Z.lor_spec by lia.
  destruct (Z.testbit v n), (Z.testbit m1 n), (Z.testbit m2 n), (n <? 8);
    reflexivity.
Qed.

Lemma clear_bits_commute v m1 m2 :
  to_u8 (Z.land (to_u8 (Z.land v (Z.lnot m1))) (Z.lnot m2))
  = to_u8 (Z.land (to_u8 (Z.land v (Z.lnot m2))) (Z.lnot m1)).
Proof.
  apply Z.bits_inj'. intros n Hn.
  rewrite !to_u8_testbit, !Z.land_spec, !to_u8_testbit, !Z.land_spec,
    !Z.lnot_spec by lia.
  destruct (Z.testbit v n), (Z.testbit m1 n), (Z.testbit m2 n), (n <? 8);
    reflexivity.
Qed.

(** X5. The order of two [SetPixel] calls, and of two [ClearPixel] calls,
    does not matter, whether they address the same byte or not; and a
    second call with the same coordinates changes nothing. *)
Theorem SetPixel_ClearPixel_commute (x1 y1 x2 y2 : Z) (lcd : CSSD1306) :
  Z.of_nat (length (m_Framebuffer lcd)) = FramebufferSize →
  (∃ lcd1 lcd2 lcd12,
     SetPixel x1 y1 lcd = Some lcd1 ∧ SetPixel x2 y2 lcd = Some lcd2 ∧
     SetPixel x2 y2 lcd1 = Some lcd12 ∧ SetPixel x1 y1 lcd2 = Some lcd12 ∧
     SetPixel x1 y1 lcd1 = Some lcd1) ∧
  (∃ lcd1 lcd2 lcd12,
     ClearPixel x1 y1 lcd = Some lcd1 ∧ ClearPixel x2 y2 lcd = Some lcd2 ∧
     ClearPixel x2 y2 lcd1 = Some lcd12 ∧ ClearPixel x1 y1 lcd2 = Some lcd12 ∧
     ClearPixel x1 y1 lcd1 = Some lcd1).
Proof.
  intros Hlen. split.
  - destruct (SetPixel_eq x1 y1 lcd Hlen) as (v1 & Hv1 & Hs1).
    destruct (SetPixel_eq x2 y2 lcd Hlen) as (v2 & Hv2 & Hs2).
    set (o1 := Z.to_nat (PixelOffset (x1 mod 128) (y1 mod 64))) in *.
    set (o2 := Z.to_nat (PixelOffset (x2 mod 128) (y2 mod 64))) in *.
    set (m1 := Z.shiftl 1 (Z.land (y1 mod 64) 7)) in *.
    set (m2 := Z.shiftl 1 (Z.land (y2 mod 64) 7)) in *.
    set (fb := m_Framebuffer lcd) in *.
    destruct (insert_update_commute (fun v => to_u8 (Z.lor v m1))
                (fun v => to_u8 (Z.lor v m2)) fb o1 o2 v1 v2 Hv1 Hv2)
      as (w1 & w2 & Hw1 & Hw2 & Heq); [intros _; apply set_bits_commute|].
    set (lcd1 := set_Framebuffer lcd (<[o1 := to_u8 (Z.lor v1 m1)]> fb)) in *.
    set (lcd2 := set_Framebuffer lcd (<[o2 := to_u8 (Z.lor v2 m2)]> fb)) in *.
    assert (Hlen1 : Z.of_nat (length (m_Framebuffer lcd1)) = FramebufferSize)
      by (subst lcd1; simpl; rewrite length_insert; exact Hlen).
    assert (Hlen2 : Z.of_nat (length (m_Framebuffer lcd2)) = FramebufferSize)
      by (subst lcd2; simpl; rewrite length_insert; exact Hlen).
    destruct (SetPixel_eq x2 y2 lcd1 Hlen1) as (u1 & Hu1 & Hs21).
    destruct (SetPixel_eq x1 y1 lcd2 Hlen2) as (u2 & Hu2 & Hs12).
    destruct (SetPixel_eq x1 y1 lcd1 Hlen1) as (u3 & Hu3 & Hs11).
    fold o1 o2 m1 m2 in Hu1, Hs21, Hu2, Hs12, Hu3, Hs11.
    assert (u1 = w1) as -> by (subst lcd1; simpl in Hu1; congruence).
    assert (u2 = w2) as -> by (subst lcd2; simpl in Hu2; congruence).
    exists lcd1, lcd2. eexists.
    split; [exact Hs1|]. split; [exact Hs2|]. split; [exact Hs21|].
    split; [rewrite Hs12; subst lcd1 lcd2; simpl; rewrite Heq; reflexivity|].
    rewrite Hs11. subst lcd1. simpl in *.
    rewrite list_lookup_insert_eq in Hu3
      by (apply lookup_lt_Some in Hv1; exact Hv1).
    injection Hu3 as <-.
    rewrite list_insert_insert_eq.
    replace (to_u8 (Z.lor (to_u8 (Z.lor v1 m1)) m1)) with (to_u8 (Z.lor v1 m1));
      [reflexivity|].
    apply Z.bits_inj'. intros n Hn.
    rewrite !to_u8_testbit, !Z.lor_spec, !to_u8_testbit, !Z.lor_spec by lia.
    destruct (Z.testbit v1 n), (Z.testbit m1 n), (n <? 8); reflexivity.
  - destruct (ClearPixel_eq x1 y1 lcd Hlen) as (v1 & Hv1 & Hs1).
    destruct (ClearPixel_eq x2 y2 lcd Hlen) as (v2 & Hv2 & Hs2).
    set (o1 := Z.to_nat (PixelOffset (x1 mod 128) (y1 mod 64))) in *.
    set (o2 := Z.to_nat (PixelOffset (x2 mod 128) (y2 mod 64))) in *.
    set (m1 := Z.shiftl 1 (Z.land (y1 mod 64) 7)) in *.
    set (m2 := Z.shiftl 1 (Z.land (y2 mod 64) 7)) in *.
    set (fb := m_Framebuffer lcd) in *.
    destruct (insert_update_commute (fun v => to_u8 (Z.land v (Z.lnot m1)))
                (fun v => to_u8 (Z.land v (Z.lnot m2))) fb o1 o2 v1 v2 Hv1 Hv2)
      as (w1 & w2 & Hw1 & Hw2 & Heq); [intros _; apply clear_bits_commute|].
    set (lcd1 := set_Framebuffer lcd (<[o1 := to_u8 (Z.land v1 (Z.lnot m1))]> fb)) in *.
    set (lcd2 := set_Framebuffer lcd (<[o2 := to_u8 (Z.land v2 (Z.lnot m2))]> fb)) in *.
    assert (Hlen1 : Z.of_nat (length (m_Framebuffer lcd1)) = FramebufferSize)
      by (subst lcd1; simpl; rewrite length_insert; exact Hlen).
    assert (Hlen2 : Z.of_nat (length (m_Framebuffer lcd2)) = FramebufferSize)
      by (subst lcd2; simpl; rewrite length_insert; exact Hlen).
    destruct (ClearPixel_eq x2 y2 lcd1 Hlen1) as (u1 & Hu1 & Hs21).
    destruct (ClearPixel_eq x1 y1 lcd2 Hlen2) as (u2 & Hu2 & Hs12).
    destruct (ClearPixel_eq x1 y1 lcd1 Hlen1) as (u3 & Hu3 & Hs11).
    fold o1 o2 m1 m2 in Hu1, Hs21, Hu2, Hs12, Hu3, Hs11.
    assert (u1 = w1) as -> by (subst lcd1; simpl in Hu1; congruence).
    assert (u2 = w2) as -> by (subst lcd2; simpl in Hu2; congruence).
    exists lcd1, lcd2. eexists.
    split; [exact Hs1|]. split; [exact Hs2|]. split; [exact Hs21|].
    split; [rewrite Hs12; subst lcd1 lcd2; simpl; rewrite Heq; reflexivity|].
    rewrite Hs11. subst lcd1. simpl in *.
    rewrite list_lookup_insert_eq in Hu3
      by (apply lookup_lt_Some in Hv1; exact Hv1).
    injection Hu3 as <-.
    rewrite list_insert_insert_eq.
    replace (to_u8 (Z.land (to_u8 (Z.land v1 (Z.lnot m1))) (Z.lnot m1)))
      with (to_u8 (Z.land v1 (Z.lnot m1))); [reflexivity|].
    apply Z.bits_inj'. intros n Hn.
    rewrite !to_u8_testbit, !Z.land_spec, !to_u8_testbit, !Z.land_spec,
      !Z.lnot_spec by lia.
    destruct (Z.testbit v1 n), (Z.testbit m1 n), (n <? 8); reflexivity.
Qed.

(** X6. [Clear] on a display of height 32 or 64 puts out every pixel of
    the configured 128 x height area, keeps the control byte and leaves
    the bytes beyond that area as they were; with [bImmediate] it then
    sends the cleared framebuffer in one write, and otherwise leaves the
    bus alone. *)
Theorem Clear_pixels (bImmediate : bool) (lcd : CSSD1306) :
  m_nHeight lcd = 32 ∨ m_nHeight lcd = 64 →
  Z.of_nat (length (m_Framebuffer lcd)) = FramebufferSize →
  ∃ fb',
    Clear bImmediate lcd
    = Some (if bImmediate
            then I2C_Write (set_Framebuffer lcd fb') (m_nAddress lcd)
                   (take (Z.to_nat (m_nHeight lcd * 16 + 1)) fb')
            else set_Framebuffer lcd fb') ∧
    length fb' = length (m_Framebuffer lcd) ∧
    fb' !! 0%nat = m_Framebuffer lcd !! 0%nat ∧
    (∀ i, 1 <= i <= m_nHeight lcd * 16 → fb' !! Z.to_nat i = Some 0) ∧
    (∀ x y, 0 <= x < 128 → 0 <= y < m_nHeight lcd → Pixel fb' x y = false) ∧
    (∀ n : nat, m_nHeight lcd * 16 < Z.of_nat n →
                fb' !! n = m_Framebuffer lcd !! n).
Proof.
  intros Hh Hlen. unfold Clear.
  assert (Hn : Width * m_nHeight lcd / 8 = 16 * m_nHeight lcd)
    by (unfold Width; Z.div_mod_to_equations; lia).
  rewrite Hn.
  destruct (memset_writes 1 0 (16 * m_nHeight lcd) (m_Framebuffer lcd))
    as (fb' & -> & Hlen' & Hin & Hout).
  { intros i Hi. rewrite Hlen. change FramebufferSize with 1025. lia. }
  assert (Hzero : ∀ i, 1 <= i <= m_nHeight lcd * 16 → fb' !! Z.to_nat i = Some 0).
  { intros i Hi. destruct (Hin i) as (v & Hv & ->); [lia | exact Hv]. }
  exists fb'. simpl. split; [|split; [exact Hlen'|split; [|split; [exact Hzero|split]]]].
  - destruct bImmediate; [|reflexivity].
    unfold WriteFramebuffer. simpl. rewrite Hlen', Hlen.
    replace (m_nHeight lcd * 16 + 1 <=? FramebufferSize) with true; [reflexivity|].
    symmetry. apply Z.leb_le. change FramebufferSize with 1025. lia.
  - apply Hout. simpl. lia.
  - intros x y Hx Hy. unfold Pixel. rewrite Hzero; [apply Z.testbit_0_l|].
    unfold PageByte, Width. destruct Hh as [Hh|Hh]; rewrite Hh in *;
      Z.div_mod_to_equations; lia.
  - intros n Hn'. apply Hout. lia.
Qed.

(** X7. [DrawPartLevels(0)] in pixels: on a display of height 32 or 64
    with levels in [0, 1], the pixel in column [j] of bar [i] and display
    row [y] above the reserved rows is lit exactly when its height above
    the bottom of the bar, barHeight - 1 - y, is below the part level in
    pixels, or is the topmost pixel of the peak level (with peaks drawn
    and a peak level that is not zero). *)
Theorem DrawPartLevels_pixels (bDrawPeaks : bool) (lcd : CSSD1306) (i : Z) :
  m_nHeight lcd = 32 ∨ m_nHeight lcd = 64 →
  Z.of_nat (length (m_Framebuffer lcd)) = FramebufferSize →
  levels_ok (base lcd) →
  0 <= i < 9 →
  ∃ fb' partLevel peakLevel partLevelPixels peakLevelPixels,
    DrawPartLevels 0 bDrawPeaks lcd = Some (set_Framebuffer lcd fb') ∧
    m_PartLevels (base lcd) !! Z.to_nat i = Some partLevel ∧
    m_PeakLevels (base lcd) !! Z.to_nat i = Some peakLevel ∧
    LevelPixels partLevel (BarHeight (m_nHeight lcd)) = Some partLevelPixels ∧
    LevelPixels peakLevel (BarHeight (m_nHeight lcd)) = Some peakLevelPixels ∧
    ∀ j y,
      0 <= j < BarWidth → 0 <= y < BarHeight (m_nHeight lcd) →
      Pixel fb' (BarOffset + i * (BarWidth + BarSpacing) + j) y
      = (BarHeight (m_nHeight lcd) - 1 - y <? partLevelPixels)
        || (bDrawPeaks && (0 <? peakLevelPixels)
            && (BarHeight (m_nHeight lcd) - 1 - y =? peakLevelPixels - 1)).
Proof.
  intros Hh Hlen Hlevels Hi.
  assert (Hgeo : BarHeight (m_nHeight lcd) = 8 * TotalPages (m_nHeight lcd) ∧
                 0 < TotalPages (m_nHeight lcd) <= 6)
    by (destruct Hh as [-> | ->]; vm_compute; intuition discriminate).
  destruct Hgeo as (Hbt & Ht).
  destruct (DrawPartLevels_writes 0 bDrawPeaks lcd Hh Hlevels (m_Framebuffer lcd))
    as (fb' & Hrun & _ & Hin & _).
  { intros n (i' & j & k & Hi' & Hj & Hk & ->).
    rewrite Hlen. change FramebufferSize with 1025.
    unfold BarByteOffset, Width, BarWidth, BarSpacing, BarOffset in *. lia. }
  destruct Hlevels as (Hn1 & Hn2 & Hl1 & Hl2).
  destruct (lookup_lt_is_Some_2 (m_PartLevels (base lcd)) (Z.to_nat i))
    as [part Hpart]; [lia|].
  destruct (lookup_lt_is_Some_2 (m_PeakLevels (base lcd)) (Z.to_nat i))
    as [peak Hpeak]; [lia|].
  rewrite Forall_lookup in Hl1, Hl2.
  destruct (PageValues_pixel_spec (m_nHeight lcd) bDrawPeaks part peak Hh
              (Hl1 _ _ Hpart) (Hl2 _ _ Hpeak))
    as (px & pk & pv & Hpx & Hpk & Hpv & Hlenpv & Hpix).
  exists fb', part, peak, px, pk.
  split; [unfold DrawPartLevels; rewrite Hrun; reflexivity|].
  split; [exact Hpart|]. split; [exact Hpeak|].
  split; [exact Hpx|]. split; [exact Hpk|].
  intros j y Hj Hy.
  set (t := TotalPages (m_nHeight lcd)) in *.
  set (k := t - 1 - y / 8).
  assert (Hk : 0 <= k < t) by (subst k; Z.div_mod_to_equations; lia).
  destruct (Hin (BarByteOffset (0 * Width) t i j k + 1))
    as (v & Hv & i' & j' & k' & pv' & Hi' & Hj' & Hk' & Heq & Hpv' & Hpvk).
  { exists i, j, k. auto. }
  assert (i' = i ∧ k' = k) as [-> ->]
    by (unfold BarByteOffset, Width, BarWidth, BarSpacing, BarOffset in *; lia).
  assert (pv' = pv) as ->.
  { unfold PartPageValues in Hpv'. rewrite Hpart, Hpeak in Hpv'. simpl in Hpv'.
    fold t in Hpv'. congruence. }
  rewrite BarByteOffset_page in Hv.
  replace (0 + (t - 1 - k)) with (y / 8) in Hv by (subst k; lia).
  rewrite <- Hpix by lia.
  unfold Pixel, BarPixel. rewrite Hv.
  replace ((BarHeight (m_nHeight lcd) - 1 - y) / 8) with k
    by (subst k; Z.div_mod_to_equations; lia).
  rewrite Hpvk. f_equal. subst k. Z.div_mod_to_equations; lia.
Qed.

(** X8. In every state reached through the operations of the driver on a
    display of height 32 or 64, the framebuffer has its full size and
    holds bytes, and a flush succeeds: it sends, in one write to the
    device address, the first height * 16 + 1 bytes, which start with the
    control byte 0x40, and changes nothing else. *)
Theorem reachable_flush (lcd : CSSD1306) :
  reachable lcd →
  m_nHeight lcd = 32 ∨ m_nHeight lcd = 64 →
  Z.of_nat (length (m_Framebuffer lcd)) = FramebufferSize ∧
  Forall is_u8 (m_Framebuffer lcd) ∧
  ∃ frame,
    WriteFramebuffer lcd = Some (I2C_Write lcd (m_nAddress lcd) frame) ∧
    frame = take (Z.to_nat (m_nHeight lcd * 16 + 1)) (m_Framebuffer lcd) ∧
    Z.of_nat (length frame) = m_nHeight lcd * 16 + 1 ∧
    frame !! 0%nat = Some 0x40 ∧
    Forall is_u8 frame.
Proof.
  intros Hreach Hh.
  destruct (reachable_Framebuffer lcd Hreach) as (H0 & Hlen & Hbytes).
  split; [exact Hlen|]. split; [exact Hbytes|].
  eexists. split; [|split; [reflexivity|]].
  - unfold WriteFramebuffer. rewrite Hlen.
    replace (m_nHeight lcd * 16 + 1 <=? FramebufferSize) with true; [reflexivity|].
    symmetry. apply Z.leb_le. change FramebufferSize with 1025. lia.
  - split; [|split].
    + rewrite length_take. change FramebufferSize with 1025 in Hlen. lia.
    + rewrite lookup_take_lt by lia. exact H0.
    + apply Forall_take. exact Hbytes.
Qed.

(** X9. On a display of height 32 or 64, [Initialize] reports success and
    sends thirty two-byte frames to the device address, each the command
    prefix 0x80 followed by one byte of the init sequence, which turns
    the display off first and on last and sets the multiplex ratio to
    height - 1; it changes nothing else in the object. *)
Theorem Initialize_sends_commands (lcd : CSSD1306) :
  m_nHeight lcd = 32 ∨ m_nHeight lcd = 64 →
  ∃ commands,
    Initialize lcd
    = (true,
       {| base := base lcd; m_nAddress := m_nAddress lcd;
          m_nHeight := m_nHeight lcd; m_Rotation := m_Rotation lcd;
          m_Framebuffer := m_Framebuffer lcd;
          i2c_writes :=
            i2c_writes lcd
            ++ map (fun byte => (m_nAddress lcd, [0x80; byte])) commands |}) ∧
    length commands = 30%nat ∧
    commands !! 0%nat = Some 0xAE ∧
    commands !! 29%nat = Some 0xAF ∧
    commands !! 13%nat = Some 0xA8 ∧
    commands !! 14%nat = Some (m_nHeight lcd - 1).
Proof.
  intros Hh. exists (initSequence (m_nHeight lcd) (m_Rotation lcd)).
  split; [|split; [reflexivity|split; [reflexivity|split; [reflexivity|split]]]].
  - unfold Initialize.
    replace ((m_nHeight lcd =? 32) || (m_nHeight lcd =? 64)) with true
      by (destruct Hh as [-> | ->]; reflexivity).
    cbn [negb]. f_equal.
    rewrite I2C_Write_foldl_address.
    generalize (initSequence (m_nHeight lcd) (m_Rotation lcd)) as bytes.
    generalize (m_nAddress lcd) at 1 3 as a.
    intros a bytes.
    assert (Hgen : ∀ l : CSSD1306,
              foldl (fun lcd' byte => I2C_Write lcd' a [0x80; byte]) l bytes
              = {| base := base l; m_nAddress := m_nAddress l;
                   m_nHeight := m_nHeight l; m_Rotation := m_Rotation l;
                   m_Framebuffer := m_Framebuffer l;
                   i2c_writes :=
                     i2c_writes l ++ map (fun byte => (a, [0x80; byte])) bytes |}).
    { induction bytes as [|b bytes IH]; intros l.
      - cbn [foldl map]. rewrite app_nil_r. destruct l; reflexivity.
      - cbn [foldl map]. rewrite IH. unfold I2C_Write. cbn.
        rewrite <- app_assoc. reflexivity. }
    apply Hgen.
  - reflexivity.
  - destruct Hh as [-> | ->]; reflexivity.
Qed.

(** ** The glyph blitter, byte by byte *)

(** Two writers in sequence, on disjoint domains. *)
Lemma writes_seq (f g : list Z → option (list Z)) (d1 d2 : Z → Prop)
    (c1 c2 : Z → Z → Prop) :
  writes f d1 c1 → writes g d2 c2 →
  (∀ n, d1 n → d2 n → False) →
  writes (fun fb => fb1 ← f fb; g fb1)
         (fun n => d1 n ∨ d2 n)
         (fun n v => d1 n ∧ c1 n v ∨ d2 n ∧ c2 n v).
Proof.
  intros Hf Hg Hdisj fb Hdom.
  destruct (Hf fb) as (fb1 & Hrun1 & Hlen1 & Hin1 & Hout1); [auto|].
  destruct (Hg fb1) as (fb2 & Hrun2 & Hlen2 & Hin2 & Hout2);
    [intros n Hn; rewrite Hlen1; auto|].
  exists fb2. rewrite Hrun1. simpl. split; [exact Hrun2|].
  split; [congruence|]. split.
  - intros n [Hn|Hn].
    + destruct (Hin1 n Hn) as (v & Hv & Hc). exists v. split; [|auto].
      assert (H0 : 0 <= n) by (apply (Hdom n); auto).
      rewrite Hout2; [exact Hv|]. rewrite Z2Nat.id by exact H0. eauto.
    + destruct (Hin2 n Hn) as (v & Hv & Hc). eauto.
  - intros n Hn. rewrite Hout2, Hout1; tauto.
Qed.

(** The copies of the double-width branch read back what was just
    written. *)
Lemma DrawChar_column_eq (fb : list Z) off lo hi (bDoubleWidth : bool) :
  0 <= off →
  (fb ← array_write fb off lo;
   fb ← array_write fb (off + Width) hi;
   if bDoubleWidth then
     v ← array_read fb off;
     fb ← array_write fb (off + 1) v;
     v ← array_read fb (off + Width);
     array_write fb (off + Width + 1) v
   else Some fb)
  = (fb ← (fb ← (fb ← array_write fb off lo;
                 array_write fb (off + Width) hi);
           if bDoubleWidth then array_write fb (off + 1) lo else Some fb);
     if bDoubleWidth then array_write fb (off + Width + 1) hi else Some fb).
Proof.
  intros Hoff.
  destruct (array_write fb off lo) as [fb1|] eqn:H1; simpl; [|reflexivity].
  destruct (array_write fb1 (off + Width) hi) as [fb2|] eqn:H2; simpl;
    [|reflexivity].
  destruct bDoubleWidth; [|reflexivity].
  apply array_write_inv in H1 as [Hb1 ->].
  apply array_write_inv in H2 as [Hb2 ->].
  rewrite length_insert in Hb2.
  assert (Hr1 : array_read (<[Z.to_nat (off + Width) := hi]>
                              (<[Z.to_nat off := lo]> fb)) off = Some lo).
  { unfold array_read.
    replace (0 <=? off) with true by (symmetry; apply Z.leb_le; lia).
    rewrite list_lookup_insert_ne by (unfold Width; lia).
    apply list_lookup_insert_eq. lia. }
  rewrite Hr1. simpl.
  destruct (array_write _ (off + 1) lo) as [fb3|] eqn:H3; simpl; [|reflexivity].
  apply array_write_inv in H3 as [Hb3 ->].
  assert (Hr2 : array_read
                  (<[Z.to_nat (off + 1) := lo]>
                     (<[Z.to_nat (off + Width) := hi]>
                        (<[Z.to_nat off := lo]> fb))) (off + Width) = Some hi).
  { unfold array_read.
    replace (0 <=? off + Width) with true
      by (symmetry; apply Z.leb_le; unfold Width; lia).
    rewrite list_lookup_insert_ne by (unfold Width; lia).
    apply list_lookup_insert_eq. rewrite length_insert. lia. }
  rewrite Hr2. reflexivity.
Qed.

(** A write that happens only under a flag. *)
Lemma writes_when (b : bool) off v :
  writes (fun fb => if b then array_write fb off v else Some fb)
         (fun n => b = true ∧ n = off) (fun _ v' => v' = v).
Proof.
  destruct b.
  - eapply writes_mono; [| |apply (writes_array_write off v)].
    + intros n. simpl. tauto.
    + intros n v' _ ->. reflexivity.
  - intros fb _. exists fb. split; [reflexivity|]. split; [reflexivity|].
    split; [intros n [? _]; discriminate | reflexivity].
Qed.

(** One glyph column as a writer: the low byte goes to [off] (and
    [off + 1]), the high byte one page further. *)
Lemma DrawChar_column_writes off lo hi (bDoubleWidth : bool) :
  0 <= off →
  writes (fun fb =>
            fb ← array_write fb off lo;
            fb ← array_write fb (off + Width) hi;
            if bDoubleWidth then
              v ← array_read fb off;
              fb ← array_write fb (off + 1) v;
              v ← array_read fb (off + Width);
              array_write fb (off + Width + 1) v
            else Some fb)
         (fun n => n = off ∨ n = off + Width ∨
                   bDoubleWidth = true ∧ (n = off + 1 ∨ n = off + Width + 1))
         (fun n v => v = if n <? off + Width then lo else hi).
Proof.
  intros Hoff.
  eapply writes_ext; [intros fb; apply DrawChar_column_eq; exact Hoff|].
  pose proof (writes_seq _ _ _ _ _ _
                (writes_array_write off lo)
                (writes_array_write (off + Width) hi)) as W1.
  specialize (W1 ltac:(unfold Width; intros n -> Hn; lia)).
  pose proof (writes_seq _ _ _ _ _ _ W1
                (writes_when bDoubleWidth (off + 1) lo)) as W2.
  specialize (W2 ltac:(unfold Width; intros n [-> | ->] [_ Hn]; lia)).
  pose proof (writes_seq _ _ _ _ _ _ W2
                (writes_when bDoubleWidth (off + Width + 1) hi)) as W3.
  specialize (W3 ltac:(unfold Width; intros n [[-> | ->] | [_ ->]] [_ Hn]; lia)).
  eapply writes_mono; [| |exact W3].
  - intros n. simpl. tauto.
  - unfold Width. intros n v _ H.
    destruct H as [[_ [[_ [[-> ->] | [-> ->]]] | [[_ ->] ->]]] | [[_ ->] ->]];
      match goal with
      | |- _ = if ?c then _ else _ =>
          let Hc := fresh in destruct c eqn:Hc; try reflexivity;
          (apply Z.ltb_lt in Hc || apply Z.ltb_ge in Hc); lia
      end.
Qed.

Lemma GlyphCell_inj nCursorX nCursorY bDoubleWidth i i' n :
  0 <= i < 6 → 0 <= i' < 6 →
  GlyphCell nCursorX nCursorY bDoubleWidth i n →
  GlyphCell nCursorX nCursorY bDoubleWidth i' n →
  i = i'.
Proof.
  unfold GlyphCell, DrawCharOffset, Width. intros Hi Hi' H H'.
  destruct bDoubleWidth;
    destruct H as [H | [H | [Hd [H | H]]]]; try discriminate;
    destruct H' as [H' | [H' | [Hd' [H' | H']]]]; try discriminate; lia.
Qed.

(** [DrawChar], for a glyph of the font and a cell inside the
    framebuffer: the bytes of the cell and the frame around it. *)
Lemma DrawChar_spec chChar nCursorX nCursorY bInverted bDoubleWidth lcd glyph :
  Font6x8 !! Z.to_nat (GlyphIndex chChar) = Some glyph →
  0 <= nCursorX → 0 <= nCursorY →
  (∀ i n, 0 <= i < 6 → GlyphCell nCursorX nCursorY bDoubleWidth i n →
          n < Z.of_nat (length (m_Framebuffer lcd))) →
  ∃ fb',
    DrawChar chChar nCursorX nCursorY bInverted bDoubleWidth lcd
    = Some (set_Framebuffer lcd fb') ∧
    length fb' = length (m_Framebuffer lcd) ∧
    (∀ i n, 0 <= i < 6 → GlyphCell nCursorX nCursorY bDoubleWidth i n →
            fb' !! Z.to_nat n
            = Some (GlyphByte glyph bInverted nCursorX nCursorY bDoubleWidth i n)) ∧
    (∀ n : nat,
       (∀ i, 0 <= i < 6 →
             ¬ GlyphCell nCursorX nCursorY bDoubleWidth i (Z.of_nat n)) →
       fb' !! n = m_Framebuffer lcd !! n).
Proof.
  intros Hglyph Hx Hy Hfit. unfold DrawChar.
  assert (Hidx : 0 <= GlyphIndex chChar) by apply to_u8_range.
  match goal with
  | |- context [for_loopM 0 6 ?body] =>
      assert (Hw : writes (for_loopM 0 6 body)
                     (fun n => ∃ i, 0 <= i < 6 ∧
                                    GlyphCell nCursorX nCursorY bDoubleWidth i n)
                     (fun n v =>
                        ∃ i, 0 <= i < 6 ∧
                             GlyphCell nCursorX nCursorY bDoubleWidth i n ∧
                             v = GlyphByte glyph bInverted nCursorX nCursorY
                                           bDoubleWidth i n))
  end.
  { apply (writes_for_loopM _
             (GlyphCell nCursorX nCursorY bDoubleWidth)
             (fun i n v => v = GlyphByte glyph bInverted nCursorX nCursorY
                                         bDoubleWidth i n)).
    - intros i Hi.
      eapply writes_ext.
      { intros fb. fold (GlyphIndex chChar). unfold FontDouble.
        rewrite (Font_at_Font _ _ _ _ glyph) by (assumption || lia).
        cbn [mbind option_bind]. cbv zeta.
        fold (GlyphColumn (DoubleColumn glyph i) bInverted i). reflexivity. }
      eapply writes_mono; [| |apply DrawChar_column_writes].
      + intros n. unfold GlyphCell. cbv zeta. reflexivity.
      + intros n v _ ->. unfold GlyphByte. cbv zeta. reflexivity.
      + pose proof (DrawCharOffset_positive nCursorX nCursorY bDoubleWidth i
                      Hx Hy ltac:(lia)). lia.
    - intros i i' n Hi Hi' Hne H H'. apply Hne.
      eapply GlyphCell_inj; eauto. }
  destruct (Hw (m_Framebuffer lcd)) as (fb' & Hrun & Hlen & Hin & Hout).
  { intros n (i & Hi & Hn). split; [|eapply Hfit; eauto].
    pose proof (DrawCharOffset_positive nCursorX nCursorY bDoubleWidth i
                  Hx Hy ltac:(lia)).
    unfold GlyphCell, Width in Hn. cbv zeta in Hn. intuition lia. }
  exists fb'. rewrite Hrun. split; [reflexivity|]. split; [exact Hlen|]. split.
  - intros i n Hi Hn.
    destruct (Hin n) as (v & Hv & i' & Hi' & Hn' & ->); [eauto|].
    rewrite (GlyphCell_inj _ _ _ i i' n Hi Hi' Hn Hn'). exact Hv.
  - intros n Hn. apply Hout. intros (i & Hi & Hc). exact (Hn i Hi Hc).
Qed.

(** The rows of the shifted column: rows 0 and 1 are blank, row [r] shows
    glyph row [(r - 2) / 2], inverted if asked except in column 0. *)
Lemma GlyphColumn_bits glyph bInverted i r :
  0 <= i < 6 → 0 <= r < 16 →
  Z.testbit (GlyphColumn (DoubleColumn glyph i) bInverted i) r
  = (2 <=? r)
    && xorb ((0 <? i) && bInverted)
            (Z.testbit (glyph !!! Z.to_nat ((r - 2) / 2)) (5 - i)).
Proof.
  intros Hi Hr. unfold GlyphColumn.
  rewrite to_u16_testbit, Z.shiftl_spec by lia.
  replace (r <? 16) with true by (symmetry; apply Z.ltb_lt; lia).
  rewrite andb_true_r.
  destruct (Z.leb_spec 2 r) as [Hge|Hlt]; simpl;
    [|apply Z.testbit_neg_r; lia].
  assert (Hm : 0 <= (r - 2) / 2 < 8) by (Z.div_mod_to_equations; lia).
  assert (Hfont : Z.testbit (DoubleColumn glyph i) (r - 2)
                  = Z.testbit (glyph !!! Z.to_nat ((r - 2) / 2)) (5 - i)).
  { rewrite DoubleColumn_bits, SingleColumn_bits by lia.
    replace (r - 2 <? 16) with true by (symmetry; apply Z.ltb_lt; lia).
    replace ((r - 2) / 2 <? 8) with true by (symmetry; apply Z.ltb_lt; lia).
    reflexivity. }
  destruct ((0 <? i) && bInverted); simpl.
  - rewrite to_u16_testbit, Z.lxor_spec, Hfont by lia.
    change 0x3FFF with (Z.ones 14). rewrite Z.testbit_ones by lia.
    replace (0 <=? r - 2) with true by (symmetry; apply Z.leb_le; lia).
    replace (r - 2 <? 14) with true by (symmetry; apply Z.ltb_lt; lia).
    replace (r - 2 <? 16) with true by (symmetry; apply Z.ltb_lt; lia).
    simpl. rewrite andb_true_r.
    destruct (Z.testbit _ (5 - i)); reflexivity.
  - exact Hfont.
Qed.

(** X10. [DrawChar] in pixels.  For a character whose glyph is in the
    font and a cell inside the framebuffer, the cell is 16 pixel rows
    high and starts at display column 6 * cursorX + 4 (12 * cursorX + 4
    in double width, where every glyph column is drawn twice); its rows 0
    and 1 are blank, and row r >= 2 of glyph column i shows bit 5 - i of
    glyph row (r - 2) / 2, inverted when asked except in column 0.  Every
    byte outside the cell keeps its value. *)
Theorem DrawChar_pixels (chChar nCursorX nCursorY : Z) (bInverted bDoubleWidth : bool)
    (lcd : CSSD1306) (glyph : CharData) :
  Font6x8 !! Z.to_nat (GlyphIndex chChar) = Some glyph →
  0 <= nCursorX → 0 <= nCursorY →
  DrawCharOffset nCursorX nCursorY bDoubleWidth 5 + Width + 1
  < Z.of_nat (length (m_Framebuffer lcd)) →
  ∃ fb',
    DrawChar chChar nCursorX nCursorY bInverted bDoubleWidth lcd
    = Some (set_Framebuffer lcd fb') ∧
    (∀ i s r,
       0 <= i < 6 → 0 <= s <= (if bDoubleWidth then 1 else 0) → 0 <= r < 16 →
       Pixel fb'
             (nCursorX * (if bDoubleWidth then 12 else 6) + 4
              + (if bDoubleWidth then 2 * i + s else i))
             (16 * nCursorY + r)
       = (2 <=? r)
         && xorb ((0 <? i) && bInverted)
                 (Z.testbit (glyph !!! Z.to_nat ((r - 2) / 2)) (5 - i))) ∧
    (∀ n : nat,
       (∀ i, 0 <= i < 6 →
             ¬ GlyphCell nCursorX nCursorY bDoubleWidth i (Z.of_nat n)) →
       fb' !! n = m_Framebuffer lcd !! n).
Proof.
  intros Hglyph Hx Hy Hfit.
  destruct (DrawChar_spec chChar nCursorX nCursorY bInverted bDoubleWidth lcd glyph)
    as (fb' & Hrun & _ & Hin & Hout); try assumption.
  { intros i n Hi Hn. revert Hfit Hn.
    unfold GlyphCell, DrawCharOffset, Width. cbv zeta.
    destruct bDoubleWidth; intuition (try discriminate; lia). }
  exists fb'. split; [exact Hrun|]. split; [|exact Hout].
  intros i s r Hi Hs Hr.
  set (x := nCursorX * (if bDoubleWidth then 12 else 6) + 4
            + (if bDoubleWidth then 2 * i + s else i)).
  assert (Hpage : PageByte ((16 * nCursorY + r) / 8) x
                  = DrawCharOffset nCursorX nCursorY bDoubleWidth i + s
                    + (r / 8) * Width).
  { subst x. unfold PageByte, DrawCharOffset, Width.
    destruct bDoubleWidth; Z.div_mod_to_equations; lia. }
  assert (Hcell : GlyphCell nCursorX nCursorY bDoubleWidth i
                    (PageByte ((16 * nCursorY + r) / 8) x)).
  { rewrite Hpage. unfold GlyphCell, Width. cbv zeta.
    assert (Hr8 : r / 8 = 0 ∨ r / 8 = 1) by (Z.div_mod_to_equations; lia).
    destruct bDoubleWidth.
    - assert (Hs' : s = 0 ∨ s = 1) by lia.
      destruct Hr8 as [-> | ->], Hs' as [-> | ->]; intuition lia.
    - assert (s = 0) as -> by lia.
      destruct Hr8 as [-> | ->]; intuition lia. }
  assert (Hs1 : 0 <= s <= 1) by (destruct bDoubleWidth; lia).
  unfold Pixel. rewrite (Hin i _ Hi Hcell), Hpage.
  unfold GlyphByte. cbv zeta.
  rewrite <- (GlyphColumn_bits glyph bInverted i r Hi Hr).
  replace ((16 * nCursorY + r) mod 8) with (r mod 8)
    by (Z.div_mod_to_equations; lia).
  destruct (Z_lt_le_dec r 8) as [Hlo|Hhi].
  - replace (_ <? _) with true
      by (symmetry; apply Z.ltb_lt; unfold Width; Z.div_mod_to_equations; lia).
    fold (to_u8 (GlyphColumn (DoubleColumn glyph i) bInverted i)).
    rewrite to_u8_testbit by (Z.div_mod_to_equations; lia).
    replace (r mod 8) with r by (Z.div_mod_to_equations; lia).
    replace (r <? 8) with true by (symmetry; apply Z.ltb_lt; lia).
    apply andb_true_r.
  - replace (_ <? _) with false
      by (symmetry; apply Z.ltb_ge; unfold Width; Z.div_mod_to_equations; lia).
    fold (to_u8 (Z.shiftr (GlyphColumn (DoubleColumn glyph i) bInverted i) 8)).
    rewrite to_u8_testbit, Z.shiftr_spec by (Z.div_mod_to_equations; lia).
    replace (r mod 8 + 8) with r by (Z.div_mod_to_equations; lia).
    replace (r mod 8 <? 8) with true
      by (symmetry; apply Z.ltb_lt; Z.div_mod_to_equations; lia).
    apply andb_true_r.
Qed.

(** A decidable property holds somewhere in a range, or nowhere in it. *)
Lemma bounded_exists_dec (P : Z → Prop) lo hi :
  (∀ i, P i ∨ ¬ P i) →
  (∃ i, lo <= i < hi ∧ P i) ∨ (∀ i, lo <= i < hi → ¬ P i).
Proof.
  intros Hdec.
  remember (Z.to_nat (hi - lo)) as n eqn:Hn. revert hi Hn.
  induction n as [|n IH]; intros hi Hn.
  - right. intros i Hi. lia.
  - destruct (IH (hi - 1)) as [(i & Hi & HP) | Hnone]; [lia | |].
    + left. exists i. split; [lia | exact HP].
    + destruct (Hdec (hi - 1)) as [HP | HP].
      * left. exists (hi - 1). split; [lia | exact HP].
      * right. intros i Hi. destruct (Z.eq_dec i (hi - 1)) as [->|Hne];
          [exact HP | apply Hnone; lia].
Qed.

Lemma GlyphCell_dec nCursorX nCursorY bDoubleWidth i n :
  GlyphCell nCursorX nCursorY bDoubleWidth i n
  ∨ ¬ GlyphCell nCursorX nCursorY bDoubleWidth i n.
Proof.
  unfold GlyphCell. cbv zeta.
  set (o := DrawCharOffset nCursorX nCursorY bDoubleWidth i).
  destruct (Z.eq_dec n o); [tauto|].
  destruct (Z.eq_dec n (o + Width)); [tauto|].
  destruct bDoubleWidth; [|right; intuition discriminate].
  destruct (Z.eq_dec n (o + 1)); [tauto|].
  destruct (Z.eq_dec n (o + Width + 1)); [tauto|].
  right. tauto.
Qed.

(** X11. [DrawChar] replaces the cell: drawing a character over another
    one (same cell, same width) leaves exactly the framebuffer that
    drawing it on the original framebuffer leaves; drawing the same
    character twice is the same as drawing it once. *)
Theorem DrawChar_overwrites (c1 c2 nCursorX nCursorY : Z) (inv1 inv2 bDoubleWidth : bool)
    (lcd : CSSD1306) :
  GlyphIndex c1 < Z.of_nat (length Font6x8) →
  GlyphIndex c2 < Z.of_nat (length Font6x8) →
  0 <= nCursorX → 0 <= nCursorY →
  DrawCharOffset nCursorX nCursorY bDoubleWidth 5 + Width + 1
  < Z.of_nat (length (m_Framebuffer lcd)) →
  ∃ lcd1 lcd2,
    DrawChar c1 nCursorX nCursorY inv1 bDoubleWidth lcd = Some lcd1 ∧
    DrawChar c2 nCursorX nCursorY inv2 bDoubleWidth lcd1 = Some lcd2 ∧
    DrawChar c2 nCursorX nCursorY inv2 bDoubleWidth lcd = Some lcd2 ∧
    DrawChar c2 nCursorX nCursorY inv2 bDoubleWidth lcd2 = Some lcd2.
Proof.
  intros Hg1 Hg2 Hx Hy Hfit.
  assert (H1 : 0 <= GlyphIndex c1) by apply to_u8_range.
  assert (H2 : 0 <= GlyphIndex c2) by apply to_u8_range.
  destruct (lookup_lt_is_Some_2 Font6x8 (Z.to_nat (GlyphIndex c1)))
    as [g1 Hglyph1]; [lia|].
  destruct (lookup_lt_is_Some_2 Font6x8 (Z.to_nat (GlyphIndex c2)))
    as [g2 Hglyph2]; [lia|].
  assert (Hcells : ∀ len, DrawCharOffset nCursorX nCursorY bDoubleWidth 5 + Width + 1
                          < len →
                   ∀ i n, 0 <= i < 6 →
                          GlyphCell nCursorX nCursorY bDoubleWidth i n → n < len).
  { intros len Hlen i n Hi Hn. revert Hlen Hn.
    unfold GlyphCell, DrawCharOffset, Width. cbv zeta.
    destruct bDoubleWidth; intuition (try discriminate; lia). }
  destruct (DrawChar_spec c1 nCursorX nCursorY inv1 bDoubleWidth lcd g1
              Hglyph1 Hx Hy (Hcells _ Hfit))
    as (fb1 & Hrun1 & Hlen1 & _ & Hout1).
  destruct (DrawChar_spec c2 nCursorX nCursorY inv2 bDoubleWidth lcd g2
              Hglyph2 Hx Hy (Hcells _ Hfit))
    as (fb2 & Hrun2 & Hlen2 & Hin2 & Hout2).
  assert (Hsame : ∀ lcd' fb',
            m_Framebuffer lcd' = fb' → length fb' = length (m_Framebuffer lcd) →
            (∀ n : nat,
               (∀ i, 0 <= i < 6 →
                     ¬ GlyphCell nCursorX nCursorY bDoubleWidth i (Z.of_nat n)) →
               fb' !! n = m_Framebuffer lcd !! n) →
            DrawChar c2 nCursorX nCursorY inv2 bDoubleWidth lcd'
            = Some (set_Framebuffer lcd' fb2)).
  { intros lcd' fb' Hfb' Hlen' Hframe.
    destruct (DrawChar_spec c2 nCursorX nCursorY inv2 bDoubleWidth lcd' g2
                Hglyph2 Hx Hy)
      as (fb3 & Hrun3 & Hlen3 & Hin3 & Hout3).
    { apply Hcells. rewrite Hfb', Hlen'. exact Hfit. }
    rewrite Hrun3. do 2 f_equal.
    apply list_eq. intros n.
    destruct (bounded_exists_dec
                (fun i => GlyphCell nCursorX nCursorY bDoubleWidth i (Z.of_nat n))
                0 6) as [(i & Hi & Hc) | Hnone];
      [intros i; apply GlyphCell_dec | |].
    - pose proof (Hin3 i _ Hi Hc) as H3. pose proof (Hin2 i _ Hi Hc) as H2'.
      rewrite Nat2Z.id in H3, H2'. congruence.
    - rewrite Hout3, Hout2 by exact Hnone. rewrite Hfb'. apply Hframe, Hnone. }
  exists (set_Framebuffer lcd fb1), (set_Framebuffer lcd fb2).
  split; [exact Hrun1|]. split; [|split; [exact Hrun2|]].
  - rewrite (Hsame (set_Framebuffer lcd fb1) fb1); auto.
  - rewrite (Hsame (set_Framebuffer lcd fb2) fb2); auto.
Qed.

Lemma Font_at_Some_inv F table nIndex j v :
  Font_at (Font F table) nIndex j = Some v →
  0 <= nIndex < Z.of_nat (length table).
Proof.
  unfold Font_at, Font.
  destruct (Z.leb_spec 0 nIndex) as [Hn | Hn]; [|discriminate].
  destruct (0 <=? j); [|discriminate].
  cbn [andb]. intros Hat. apply bind_Some in Hat as (columns & Hc & _).
  apply lookup_lt_Some in Hc. rewrite length_map in Hc. lia.
Qed.

(** X12. [DrawChar] stays inside its arrays exactly when the glyph index
    of the character, (c - 32) mod 256 with 0xFF taken as 0x80, is below
    the number of glyphs of the font, and the last byte of the cell lies
    inside the framebuffer. *)
Theorem DrawChar_in_bounds_iff (chChar nCursorX nCursorY : Z)
    (bInverted bDoubleWidth : bool) (lcd : CSSD1306) :
  0 <= nCursorX → 0 <= nCursorY →
  is_Some (DrawChar chChar nCursorX nCursorY bInverted bDoubleWidth lcd)
  ↔ GlyphIndex chChar < Z.of_nat (length Font6x8) ∧
    DrawCharOffset nCursorX nCursorY bDoubleWidth 5 + Width
    + (if bDoubleWidth then 1 else 0)
    < Z.of_nat (length (m_Framebuffer lcd)).
Proof.
  intros Hx Hy. split.
  - intros [lcd' Hrun]. unfold DrawChar in Hrun.
    apply bind_Some in Hrun as (fb' & Hloop & _).
    fold (GlyphIndex chChar) in Hloop.
    match type of Hloop with
    | for_loopM 0 6 ?body ?fb = _ =>
        pose proof (for_loopM_post
                      (fun j (fb1 : list Z) =>
                         length fb1 = length fb ∧
                         (0 < j →
                          GlyphIndex chChar < Z.of_nat (length Font6x8) ∧
                          DrawCharOffset nCursorX nCursorY bDoubleWidth (j - 1)
                          + Width + (if bDoubleWidth then 1 else 0)
                          < Z.of_nat (length fb)))
                      0 6 body fb fb' ltac:(lia)) as Hpost
    end.
    destruct Hpost as [_ Hpost]; [split; [reflexivity | lia] | | exact Hloop |].
    + intros j fb1 fb2 Hj [Hl _] Hbody.
      apply bind_Some in Hbody as (fc & Hfont & Hbody). cbv zeta in Hbody.
      apply Font_at_Some_inv in Hfont.
      apply bind_Some in Hbody as (fbA & HwA & Hbody).
      apply bind_Some in Hbody as (fbB & HwB & Hbody).
      pose proof (array_write_length _ _ _ _ HwA) as HlA.
      pose proof (array_write_length _ _ _ _ HwB) as HlB.
      apply array_write_inv in HwB as [HbB _].
      replace (j + 1 - 1) with j by lia.
      destruct bDoubleWidth.
      * apply bind_Some in Hbody as (v1 & _ & Hbody).
        apply bind_Some in Hbody as (fbC & HwC & Hbody).
        apply bind_Some in Hbody as (v2 & _ & HwD).
        pose proof (array_write_length _ _ _ _ HwC) as HlC.
        pose proof (array_write_length _ _ _ _ HwD) as HlD.
        apply array_write_inv in HwD as [HbD _].
        split; [congruence|]. intros _. split; [lia|].
        rewrite <- Hl, <- HlA, <- HlB, <- HlC. lia.
      * injection Hbody as <-.
        split; [congruence|]. intros _. split; [lia|].
        rewrite <- Hl, <- HlA. lia.
    + apply Hpost. lia.
  - intros [Hglyph Hfit].
    assert (H0 : 0 <= GlyphIndex chChar) by apply to_u8_range.
    destruct (lookup_lt_is_Some_2 Font6x8 (Z.to_nat (GlyphIndex chChar)))
      as [g Hg]; [lia|].
    destruct (DrawChar_spec chChar nCursorX nCursorY bInverted bDoubleWidth lcd g
                Hg Hx Hy)
      as (fb' & -> & _); [|eexists; reflexivity].
    intros i n Hi Hn. revert Hfit Hn.
    unfold GlyphCell, DrawCharOffset, Width. cbv zeta.
    destruct bDoubleWidth; intuition (try discriminate; lia).
Qed.

(** X13. With the cursor at column 20 or beyond, [Print] draws nothing,
    whatever the text and even when asked to clear the line: the object
    is unchanged, apart from the flush when [bImmediate] is set. *)
Theorem Print_beyond_last_column (pText : list Z) (nCursorX nCursorY : Z)
    (bClearLine bImmediate : bool) (lcd : CSSD1306) :
  20 <= nCursorX →
  Print pText nCursorX nCursorY bClearLine bImmediate lcd
  = if bImmediate then WriteFramebuffer lcd else Some lcd.
Proof.
  intros Hx. unfold Print.
  assert (Hchars : Print_chars pText nCursorX nCursorY lcd = Some (nCursorX, lcd)).
  { destruct pText as [|c pText]; simpl; [reflexivity|].
    replace (nCursorX <? 20) with false by (symmetry; apply Z.ltb_ge; lia).
    rewrite andb_false_r. reflexivity. }
  rewrite Hchars. simpl.
  destruct bClearLine; [rewrite for_loopM_empty by lia|]; reflexivity.
Qed.

End Driver.

Lemma FontDouble_duplicates_FontSingle_witness :
  ∃ single double,
    Font_at (FontSingle SampleFont) 33 1 = Some single ∧
    Font_at (FontDouble SampleFont) 33 1 = Some double ∧
    0 <= single < 2 ^ 8 ∧ 0 <= double < 2 ^ 16 ∧
    ∀ i, 0 <= i < 8 →
         Z.testbit double (2 * i) = Z.testbit single i ∧
         Z.testbit double (2 * i + 1) = Z.testbit single i.
Proof.
  apply (FontDouble_duplicates_FontSingle SampleFont 33 1); simpl; lia.
Defined.

(** ** The theorems at sample inputs *)

Lemma SampleLCD_length :
  Z.of_nat (length (m_Framebuffer SampleLCD)) = FramebufferSize.
Proof. reflexivity. Qed.

Lemma SampleLCD_bytes : Forall is_u8 (m_Framebuffer SampleLCD).
Proof.
  apply Forall_cons. split; [unfold is_u8; lia|].
  apply Forall_replicate. unfold is_u8; lia.
Qed.

Lemma SampleLevels_unit : Forall unit_level SampleLevels.
Proof.
  repeat (apply Forall_cons; split;
          [split; unfold Qle; simpl; lia|]).
  apply Forall_nil_2.
Qed.

Lemma SampleBase_levels_ok : levels_ok SampleBase.
Proof.
  split; [reflexivity|]. split; [reflexivity|].
  split; apply SampleLevels_unit.
Qed.

Lemma BarPages_fill_pattern_witness :
  (64 = 32 ∨ 64 = 64) ∧
  Z.of_nat (length (replicate 6 7)) = TotalPages 64 ∧
  LevelPixels (1 # 2) (BarHeight 64) = Some 24 ∧
  24 / 8 = 3 ∧ 24 mod 8 = 0 ∧
  BarPages (TotalPages 64) 24 (replicate 6 7)
  = Some [0xFF; 0xFF; 0xFF; 0x00; 0x00; 0x00].
Proof.
  assert (H1 : 64 = 32 ∨ 64 = 64) by (right; reflexivity).
  assert (H2 : Z.of_nat (length (replicate 6 7)) = TotalPages 64) by reflexivity.
  split; [exact H1|]. split; [exact H2|].
  destruct (BarPages_fill_pattern 64 (replicate 6 7) H1 H2) as (_ & _ & _ & Hhalf).
  exact (Hhalf (1 # 2)%Q (Qeq_refl _) eq_refl).
Defined.

Lemma PeakMeter_marker_witness :
  0 < 16 < 256 ∧ Forall is_u8 [0xFF; 0; 0; 0; 0; 0] ∧
  0 <= PeakIndex 16 < Z.of_nat (length [0xFF; 0; 0; 0; 0; 0]) ∧
  ∃ old pageValues',
    [0xFF; 0; 0; 0; 0; 0] !! 1%nat = Some old ∧
    PeakMeter true 16 [0xFF; 0; 0; 0; 0; 0] = Some pageValues' ∧
    pageValues' !! 1%nat = Some (Z.lor old 1) ∧
    pageValues' !! 2%nat = [0xFF; 0; 0; 0; 0; 0] !! 2%nat.
Proof.
  assert (H1 : 0 < 16 < 256) by lia.
  assert (H2 : Forall is_u8 [0xFF; 0; 0; 0; 0; 0])
    by (repeat (apply Forall_cons; split; [unfold is_u8; lia|]); apply Forall_nil_2).
  assert (H3 : 0 <= PeakIndex 16 < Z.of_nat (length [0xFF; 0; 0; 0; 0; 0]))
    by (vm_compute; split; [discriminate | reflexivity]).
  split; [exact H1|]. split; [exact H2|]. split; [exact H3|].
  apply (PeakMeter_marker 16 [0xFF; 0; 0; 0; 0; 0] H1 H2 H3). reflexivity.
Defined.

Lemma PeakMeter_index_in_bounds_witness :
  (64 = 32 ∨ 64 = 64) ∧
  (∃ peakLevelPixels,
     LevelPixels (1 # 3) (BarHeight 64) = Some peakLevelPixels ∧
     0 <= peakLevelPixels <= BarHeight 64) ∧
  0 <= PeakIndex 16 < TotalPages 64 ∧
  is_Some (PeakMeter true 48 [0xFF; 0xFF; 0xFF; 0xFF; 0xFF; 0xFF]).
Proof.
  assert (H1 : 64 = 32 ∨ 64 = 64) by (right; reflexivity).
  split; [exact H1|].
  destruct (PeakMeter_index_in_bounds 64 H1) as (Hlevel & Hidx & Htotal).
  split; [|split].
  - apply (Hlevel (1 # 3)%Q); unfold Qle; simpl; lia.
  - apply (Hidx 16). vm_compute. intuition discriminate.
  - apply (Htotal 48 true); [vm_compute; intuition discriminate | reflexivity].
Defined.

Lemma SetPixel_ClearPixel_spec_witness :
  Z.of_nat (length (m_Framebuffer SampleLCD)) = FramebufferSize ∧
  Forall is_u8 (m_Framebuffer SampleLCD) ∧
  let x := Z.land 255 (Z.ones 7) in
  let y := Z.land 70 (Z.ones 6) in
  let offset := Z.shiftl (Z.land y (Z.lnot 7)) 4 + x + 1 in
  let bit := Z.land y 7 in
  0 <= x < 128 ∧ 0 <= y < 64 ∧
  0 < offset < FramebufferSize ∧ 0 <= bit < 8 ∧
  ∃ old,
    m_Framebuffer SampleLCD !! Z.to_nat offset = Some old ∧
    SetPixel 255 70 SampleLCD
    = Some (set_Framebuffer SampleLCD
              (<[Z.to_nat offset := Z.lor old (2 ^ bit)]>
                 (m_Framebuffer SampleLCD))) ∧
    ClearPixel 255 70 SampleLCD
    = Some (set_Framebuffer SampleLCD
              (<[Z.to_nat offset := Z.land old (Z.lnot (2 ^ bit))]>
                 (m_Framebuffer SampleLCD))).
Proof.
  split; [exact SampleLCD_length|]. split; [exact SampleLCD_bytes|].
  exact (SetPixel_ClearPixel_spec 255 70 SampleLCD SampleLCD_length SampleLCD_bytes).
Defined.

Lemma SetPixel_then_ClearPixel_witness :
  Z.of_nat (length (m_Framebuffer SampleLCD)) = FramebufferSize ∧
  Forall is_u8 (m_Framebuffer SampleLCD) ∧
  ∃ lcd1 lcd2,
    SetPixel 255 0 SampleLCD = Some lcd1 ∧
    ClearPixel 255 0 lcd1 = Some lcd2 ∧
    lcd2 = SampleLCD ∧
    SetPixel 127 0 SampleLCD = Some lcd1 ∧
    ClearPixel 127 0 lcd1 = Some lcd2.
Proof.
  split; [exact SampleLCD_length|]. split; [exact SampleLCD_bytes|].
  destruct (SetPixel_then_ClearPixel 255 0 SampleLCD SampleLCD_length SampleLCD_bytes)
    as (old & lcd1 & lcd2 & Hold & Hset & Hclr & _ & Hrestore & _ & _ & _ & H255).
  exists lcd1, lcd2. split; [exact Hset|]. split; [exact Hclr|].
  split; [|exact (H255 eq_refl)].
  apply Hrestore. vm_compute in Hold. injection Hold as <-. reflexivity.
Defined.

(** C5, as first stated, fails: with the pixel (0, 0) already lit,
    [SetPixel] followed by [ClearPixel] leaves the byte at 0 where it
    held 1. *)
Lemma SetPixel_ClearPixel_not_restored :
  SetPixel 0 0 SampleLCD = Some LitLCD ∧
  ∃ lcd1 lcd2,
    SetPixel 0 0 LitLCD = Some lcd1 ∧
    ClearPixel 0 0 lcd1 = Some lcd2 ∧
    m_Framebuffer LitLCD !! Z.to_nat (PixelOffset 0 0) = Some 1 ∧
    m_Framebuffer lcd2 !! Z.to_nat (PixelOffset 0 0) = Some 0 ∧
    m_Framebuffer lcd2 !! Z.to_nat (PixelOffset 0 0)
    ≠ m_Framebuffer LitLCD !! Z.to_nat (PixelOffset 0 0).
Proof.
  split; [vm_compute; reflexivity|].
  eexists. eexists.
  split; [vm_compute; reflexivity|].
  split; [vm_compute; reflexivity|].
  split; [vm_compute; reflexivity|].
  split; [vm_compute; reflexivity|].
  vm_compute. discriminate.
Qed.

Lemma DrawPartLevels_bar_region_witness :
  (m_nHeight SampleLCD = 32 ∨ m_nHeight SampleLCD = 64) ∧
  Z.of_nat (length (m_Framebuffer SampleLCD)) = FramebufferSize ∧
  levels_ok (base SampleLCD) ∧
  ∃ fb',
    DrawPartLevels 0 true SampleLCD = Some (set_Framebuffer SampleLCD fb') ∧
    ∀ column,
      0 <= column < Width →
      fb' !! Z.to_nat (PageByte (m_nHeight SampleLCD / 8 - 2) column)
      = m_Framebuffer SampleLCD
          !! Z.to_nat (PageByte (m_nHeight SampleLCD / 8 - 2) column) ∧
      fb' !! Z.to_nat (PageByte (m_nHeight SampleLCD / 8 - 1) column)
      = m_Framebuffer SampleLCD
          !! Z.to_nat (PageByte (m_nHeight SampleLCD / 8 - 1) column).
Proof.
  assert (H1 : m_nHeight SampleLCD = 32 ∨ m_nHeight SampleLCD = 64)
    by (right; reflexivity).
  split; [exact H1|]. split; [exact SampleLCD_length|].
  split; [exact SampleBase_levels_ok|].
  destruct (DrawPartLevels_bar_region true SampleLCD H1 SampleLCD_length
              SampleBase_levels_ok)
    as (_ & _ & fb' & Hrun & _ & _ & _ & Hlast).
  exists fb'. split; [exact Hrun | exact Hlast].
Defined.

(** C6, as first stated, fails: on the 64-pixel sample display the bar of
    part 2 (level 1) is drawn into the top two pages, 0 and 1, while the
    last two pages, 6 and 7, are left as they were. *)
Lemma DrawPartLevels_draws_top_pages :
  ∃ lcd',
    DrawPartLevels 0 true SampleLCD = Some lcd' ∧
    m_Framebuffer SampleLCD !! Z.to_nat (PageByte 0 30) = Some 0 ∧
    m_Framebuffer lcd' !! Z.to_nat (PageByte 0 30) = Some 0xFF ∧
    m_Framebuffer SampleLCD !! Z.to_nat (PageByte 1 30) = Some 0 ∧
    m_Framebuffer lcd' !! Z.to_nat (PageByte 1 30) = Some 0xFF ∧
    drop (Z.to_nat (PageByte 6 0)) (m_Framebuffer lcd')
    = drop (Z.to_nat (PageByte 6 0)) (m_Framebuffer SampleLCD).
Proof.
  eexists. split; [vm_compute; reflexivity|].
  repeat split; vm_compute; reflexivity.
Qed.

Lemma Print_blits_pads_flushes_witness :
  0 <= 0 < 20 ∧
  ∃ lcd5 lcd',
    BlitCells SampleFont false false [72; 69; 76; 76; 79] 0 0 SampleLCD = Some lcd5 ∧
    BlitCells SampleFont false false (replicate 15 32) 5 0 lcd5 = Some lcd' ∧
    Print SampleFont false false [72; 69; 76; 76; 79] 0 0 true false SampleLCD
    = Some lcd' ∧
    i2c_writes lcd' = i2c_writes SampleLCD.
Proof.
  assert (H1 : 0 <= 0 < 20) by lia.
  split; [exact H1|].
  destruct (Print_blits_pads_flushes SampleFont false false
              [72; 69; 76; 76; 79] 0 0 true false SampleLCD H1)
    as (_ & _ & Hhello).
  apply Hhello; try reflexivity.
  simpl. lia.
Defined.

Lemma Initialize_unsupported_height_witness :
  m_nHeight Sample48LCD ≠ 32 ∧ m_nHeight Sample48LCD ≠ 64 ∧
  fst (Initialize Sample48LCD) = false ∧
  i2c_writes (snd (Initialize Sample48LCD)) = i2c_writes Sample48LCD ∧
  snd (Initialize Sample48LCD) = Sample48LCD.
Proof.
  assert (H1 : m_nHeight Sample48LCD ≠ 32) by (vm_compute; discriminate).
  assert (H2 : m_nHeight Sample48LCD ≠ 64) by (vm_compute; discriminate).
  split; [exact H1|]. split; [exact H2|].
  exact (Initialize_unsupported_height Sample48LCD H1 H2).
Defined.
